(** * Caliper's blockchain facade and its default transaction statistics

    A shallow embedding of [src/comm/blockchain.js]: the [Blockchain] class
    that selects a backend from the configuration, forwards the benchmark
    operations to it, and reduces transaction results to statistics
    ([getDefaultTxStats], [mergeDefaultTxStats]).

    JavaScript numbers are IEEE-754 binary64 values; they are modelled by
    Rocq's primitive floats, whose operations are specified by the
    [FloatAxioms] of the standard library.  Counters that the code only
    ever increments by one, or adds up (array lengths are below 2^32), are
    natural numbers. *)

From Stdlib Require Import ZArith Floats Lia Permutation.
From stdpp Require Import gmap strings list.

Local Open Scope string_scope.

(** ** JavaScript values *)

(** The values a parameter can be bound to.  Objects and functions are
    opaque references. *)
Inductive value :=
| JUndefined
| JNull
| JBoolean (b : bool)
| JNumber (x : float)
| JString (s : string)
| JObject (ref : nat)
| JFunction (ref : nat).

(** The [typeof] operator. *)
Definition typeof (v : value) : string :=
  match v with
  | JUndefined => "undefined"
  | JNull => "object"
  | JBoolean _ => "boolean"
  | JNumber _ => "number"
  | JString _ => "string"
  | JObject _ => "object"
  | JFunction _ => "function"
  end.

(** A time field of a result, and the running minima and maxima read from
    it: a number, or [undefined] when the property is absent or the
    variable was never assigned. *)
Inductive numeric :=
| NUndefined
| NNumber (x : float).

(** [ToNumber] on these values: [undefined] converts to [NaN]. *)
Definition ToNumber (v : numeric) : float :=
  match v with
  | NUndefined => nan
  | NNumber x => x
  end.

(** [typeof v === 'undefined'] *)
Definition is_undefined (v : numeric) : bool :=
  match v with
  | NUndefined => true
  | NNumber _ => false
  end.

(** The relational operators on such operands compare their [ToNumber]
    images; a comparison with [NaN] is false. *)
Definition js_lt (a b : numeric) : bool := (ToNumber a <? ToNumber b)%float.
Definition js_gt (a b : numeric) : bool := (ToNumber b <? ToNumber a)%float.

(** ** [Math.round] and [Number.prototype.toString] *)

Module Js.

(** The integer a finite non-zero number [(-1)^s * m * 2^e] rounds to:
    [floor (x + 1/2)], computed on integers. *)
Definition round_finite (s : bool) (m : positive) (e : Z) : Z :=
  let v := if s then Z.neg m else Z.pos m in
  if (0 <=? e)%Z then Z.shiftl v e
  else Z.shiftr (2 * v + Z.shiftl 1 (- e)) (- e + 1).

(** A float from an integer of magnitude below 2^63. *)
Definition float_of_Z (n : Z) : float :=
  match n with
  | Z0 => zero
  | Zpos _ => of_uint63 (Uint63.of_Z n)
  | Zneg p => (- of_uint63 (Uint63.of_Z (Zpos p)))%float
  end.

(** [Math.round x]: the closest integral number, ties towards +infinity;
    NaN, the infinities, the zeros and the numbers that are integral
    already (every number with a non-negative exponent is) are returned
    as they are, and a negative number that rounds to zero gives [-0]. *)
Definition Math_round (x : float) : float :=
  match Prim2SF x with
  | S754_finite s m e =>
      if (0 <=? e)%Z then x
      else
        let n := round_finite s m e in
        if (n =? 0)%Z then (if s then neg_zero else zero) else float_of_Z n
  | _ => x
  end.

(** Decimal digits of a natural number. *)
Definition digit (d : Z) : string :=
  String (Ascii.ascii_of_nat (48 + Z.to_nat d)) EmptyString.

Fixpoint digits_go (fuel : nat) (n : Z) (acc : string) : string :=
  match fuel with
  | O => acc
  | S fuel' =>
      let acc' := digit (n mod 10) ++ acc in
      if (n <? 10)%Z then acc' else digits_go fuel' (n / 10) acc'
  end.

Definition digits (n : Z) : string := digits_go (S (Z.to_nat (Z.log2 n))) n "".

(** Number of decimal digits of a positive integer. *)
Definition ndigits (n : Z) : Z := Z.of_nat (String.length (digits n)).

Fixpoint zeros (n : nat) : string :=
  match n with
  | O => ""
  | S n' => "0" ++ zeros n'
  end.

(** *** Shortest digits of an integral number

    For a positive integral number [x = m * 2^e], ECMA-262's
    [Number::toString] takes integers [n], [k], [s] with [s] of [k]
    digits, [s * 10^(n-k)] rounding to [x], and [k] as small as possible;
    among several [s], the one closest to [x], the even one on a tie.  A
    real [v] rounds to [x] when it lies between the midpoints to the
    neighbours of [x], the midpoints included when [m] is even.  All
    quantities below are multiplied by four to stay integral. *)

Definition in_rounding_interval (m : positive) (e : Z) (v4 : Z) : bool :=
  let x4 := (4 * Z.shiftl (Zpos m) e)%Z in
  let up := (2 * Z.shiftl 1 e)%Z in
  let down := if (Zpos m =? Z.shiftl 1 52)%Z then Z.shiftl 1 e else up in
  if Z.even (Zpos m)
  then ((x4 - down <=? v4) && (v4 <=? x4 + up))%Z
  else ((x4 - down <? v4) && (v4 <? x4 + up))%Z.

(** The candidates [(s, n)] with [k] digits, best first. *)
Definition candidates (m : positive) (e : Z) (k : Z) : list (Z * Z) :=
  let x := Z.shiftl (Zpos m) e in
  let nx := ndigits x in
  let ok (n s : Z) :=
    ((k <=? n) && (10 ^ (k - 1) <=? s) && (s <? 10 ^ k)
     && in_rounding_interval m e (4 * s * 10 ^ (n - k)))%Z in
  let at_n (n : Z) :=
    let p := (10 ^ (n - k))%Z in
    let lo := (x / p)%Z in
    List.filter (fun c => ok (snd c) (fst c)) [(lo, n); ((lo + 1)%Z, n)] in
  let dist (c : Z * Z) := Z.abs (fst c * 10 ^ (snd c - k) - x) in
  let better (c d : Z * Z) :=
    ((dist c <? dist d) || ((dist c =? dist d) && Z.even (fst c)))%Z in
  match at_n nx ++ at_n (nx + 1)%Z with
  | [] => []
  | c :: cs => [List.fold_left (fun b d => if better d b then d else b) cs c]
  end.

Fixpoint shortest_go (fuel : nat) (m : positive) (e : Z) (k : Z) : Z * Z * Z :=
  match fuel with
  | O => (Z.shiftl (Zpos m) e, k, k)
  | S fuel' =>
      match candidates m e k with
      | (s, n) :: _ => (s, n, k)
      | [] => shortest_go fuel' m e (k + 1)
      end
  end.

(** [(s, n, k)] for the integral [m * 2^e], [0 <= e]: seventeen digits
    always suffice for a binary64 number. *)
Definition shortest (m : positive) (e : Z) : Z * Z * Z := shortest_go 17 m e 1.

(** The string of an integral positive number from its shortest digits:
    plain digits padded with zeros up to 21 digits, exponential notation
    beyond. *)
Definition format_integral (s n k : Z) : string :=
  if (n <=? 21)%Z then digits s ++ zeros (Z.to_nat (n - k))
  else
    let ds := digits s in
    let mantissa :=
      match ds with
      | String c rest =>
          if (k =? 1)%Z then String c EmptyString
          else String c EmptyString ++ "." ++ rest
      | EmptyString => ""
      end in
    mantissa ++ "e+" ++ digits (n - 1).

(** [Number.prototype.toString] (radix 10) on the numbers [Math.round]
    returns: NaN, the infinities, the zeros and the integral numbers.  An
    integral number below 2^53 in magnitude prints its exact digits.  The
    code applies it to the result of [Math.round] only, which has no
    fractional part ([Math_round_integral] below); on a number with a
    fractional part this function prints the integer part, which is not
    what JavaScript prints. *)
Definition Number_toString (x : float) : string :=
  match Prim2SF x with
  | S754_nan => "NaN"
  | S754_zero _ => "0"
  | S754_infinity s => if s then "-Infinity" else "Infinity"
  | S754_finite s m e =>
      let sign := if s then "-" else "" in
      if (0 <? e)%Z then
        let '(d, n, k) := shortest m e in sign ++ format_integral d n k
      else sign ++ digits (Z.shiftr (Zpos m) (- e))
  end.

End Js.

(** ** Transaction results and statistics *)

(** The object an [invoke] or [query] transaction resolves to.  The
    statistics read [status], [time_create] and [time_valid] (both in
    milliseconds); a property that is absent reads as [undefined]. *)
Record txStatus := {
  id : string;
  status : string;
  time_create : numeric;
  time_valid : numeric;
  result : value
}.

(** The [{min, max}] objects of [create] and [valid], and the
    [{min, max, sum}] object of [delay]. *)
Module Range.
Record t := { min : float; max : float }.
End Range.

Module Delay.
Record t := { min : float; max : float; sum : float }.
End Delay.

(** [txStatistics]: [throughput] is the object used as a map from a time
    slot to the number of transactions in it. *)
Record txStatistics := {
  succ : nat;
  fail : nat;
  create : Range.t;
  valid : Range.t;
  delay : Delay.t;
  throughput : gmap string nat;
  out : list value
}.

(** The local variables of [getDefaultTxStats]. *)
Record vars := {
  v_succ : nat;
  v_fail : nat;
  v_delay : float;
  v_minValid : numeric;
  v_maxValid : numeric;
  v_minCreate : numeric;
  v_maxCreate : numeric;
  v_minDelay : float;
  v_maxDelay : float;
  v_throughput : gmap string nat
}.

(** The variables before the loop. *)
Definition initial : vars := {|
  v_succ := 0;
  v_fail := 0;
  v_delay := 0%float;
  v_minValid := NUndefined;
  v_maxValid := NUndefined;
  v_minCreate := NUndefined;
  v_maxCreate := NUndefined;
  v_minDelay := 100000%float;
  v_maxDelay := 0%float;
  v_throughput := ∅
|}.

(** The running minimum and maximum of [create] or [valid]: both are set
    by the first value, later values replace them when they compare
    below or above. *)
Definition track (x lo hi : numeric) : numeric * numeric :=
  if is_undefined lo then (x, x)
  else (if js_lt x lo then x else lo, if js_gt x hi then x else hi).

(** [throughput[idx]] is set to 1 when it is undefined, and incremented
    otherwise.  The code reads [throughput[idx]] along the prototype
    chain of the object; [idx] is a string [Number.prototype.toString]
    returns, which names no member of [Object.prototype]
    ([slot_names_no_member] below), so the read finds an own property
    or nothing, as the lookup in the map does. *)
Definition count_slot (idx : string) (t : gmap string nat) : gmap string nat :=
  match t !! idx with
  | None => <[idx := 1]> t
  | Some c => <[idx := c + 1]> t
  end.

(** The slot of a successful transaction: [Math.round(valid).toString()]. *)
Definition slot (valid : numeric) : string :=
  Js.Number_toString (Js.Math_round (ToNumber valid)).

(** The delay of a successful transaction: [(valid - create) / 1000]. *)
Definition latency (stat : txStatus) : float :=
  ((ToNumber (time_valid stat) - ToNumber (time_create stat)) / 1000)%float.

(** One iteration of the loop, for [results[i] = stat]. *)
Definition loop_body (v : vars) (stat : txStatus) : vars :=
  let create := time_create stat in
  let '(minCreate, maxCreate) := track create (v_minCreate v) (v_maxCreate v) in
  if String.eqb (status stat) "success" then
    let valid := time_valid stat in
    let d := latency stat in
    let '(minValid, maxValid) := track valid (v_minValid v) (v_maxValid v) in
    {| v_succ := v_succ v + 1;
       v_fail := v_fail v;
       v_delay := (v_delay v + d)%float;
       v_minValid := minValid;
       v_maxValid := maxValid;
       v_minCreate := minCreate;
       v_maxCreate := maxCreate;
       v_minDelay := if (d <? v_minDelay v)%float then d else v_minDelay v;
       v_maxDelay := if (v_maxDelay v <? d)%float then d else v_maxDelay v;
       v_throughput := count_slot (slot valid) (v_throughput v) |}
  else
    {| v_succ := v_succ v;
       v_fail := v_fail v + 1;
       v_delay := v_delay v;
       v_minValid := v_minValid v;
       v_maxValid := v_maxValid v;
       v_minCreate := minCreate;
       v_maxCreate := maxCreate;
       v_minDelay := v_minDelay v;
       v_maxDelay := v_maxDelay v;
       v_throughput := v_throughput v |}.

(** The object built after the loop; the bounds of [create] and [valid]
    are converted to seconds. *)
Definition stats_of (v : vars) : txStatistics := {|
  succ := v_succ v;
  fail := v_fail v;
  create := {| Range.min := (ToNumber (v_minCreate v) / 1000)%float;
               Range.max := (ToNumber (v_maxCreate v) / 1000)%float |};
  valid := {| Range.min := (ToNumber (v_minValid v) / 1000)%float;
              Range.max := (ToNumber (v_maxValid v) / 1000)%float |};
  delay := {| Delay.min := v_minDelay v;
              Delay.max := v_maxDelay v;
              Delay.sum := v_delay v |};
  throughput := v_throughput v;
  out := []
|}.

Definition getDefaultTxStats (results : list txStatus) : txStatistics :=
  stats_of (fold_left loop_body results initial).

(** ** Merging statistics *)

(** The [for (let j in v.throughput)] loop: every slot of [v] is added to
    the slot of [r], or copied when [r] has none.  This is the loop on
    the objects [getDefaultTxStats] and merges of them produce: their
    slots are strings [Number.prototype.toString] returns, for which
    [typeof r.throughput[j]] reads an own property or nothing, and
    their counts are integers bounded by the number of results, which
    binary64 adds exactly.  The theorems on merged statistics below
    take their [throughput] objects from there. *)
Definition merge_throughput (r v : gmap string nat) : gmap string nat :=
  map_fold (fun j c acc =>
              match acc !! j with
              | None => <[j := c]> acc
              | Some c0 => <[j := c0 + c]> acc
              end) r v.

(** One iteration of the loop of [mergeDefaultTxStats]: [v = results[i]]
    is merged into [r = results[0]]. *)
Definition merge_body (r v : txStatistics) : txStatistics := {|
  succ := succ r + succ v;
  fail := fail r + fail v;
  create :=
    {| Range.min := if (Range.min (create v) <? Range.min (create r))%float
                    then Range.min (create v) else Range.min (create r);
       Range.max := if (Range.max (create r) <? Range.max (create v))%float
                    then Range.max (create v) else Range.max (create r) |};
  valid :=
    {| Range.min := if (Range.min (valid v) <? Range.min (valid r))%float
                    then Range.min (valid v) else Range.min (valid r);
       Range.max := if (Range.max (valid r) <? Range.max (valid v))%float
                    then Range.max (valid v) else Range.max (valid r) |};
  delay :=
    {| Delay.min := if (Delay.min (delay v) <? Delay.min (delay r))%float
                    then Delay.min (delay v) else Delay.min (delay r);
       Delay.max := if (Delay.max (delay r) <? Delay.max (delay v))%float
                    then Delay.max (delay v) else Delay.max (delay r);
       Delay.sum := (Delay.sum (delay r) + Delay.sum (delay v))%float |};
  throughput := merge_throughput (throughput r) (throughput v);
  out := out r ++ out v
|}.

(** [mergeDefaultTxStats] returns nothing; its effect is on the array's
    first object.  The function below gives the array after the call:
    nothing happens to an empty array, and otherwise the first element
    has absorbed the others, which are left as they were.  The objects of
    the array are taken to be distinct. *)
Definition mergeDefaultTxStats (results : list txStatistics) : list txStatistics :=
  match results with
  | [] => []
  | r :: vs => fold_left merge_body vs r :: vs
  end.

(** The merged statistics: [results[0]] after the call. *)
Definition merged (results : list txStatistics) : option txStatistics :=
  head (mergeDefaultTxStats results).

(** ** The facade *)

(** What a [throw] carries: an [Error] with its message, a [TypeError]
    of the engine (its message is the engine's own), or any other value
    a backend or a function of the configuration throws. *)
Inductive exn :=
| Error (message : string)
| TypeError
| Thrown (v : value).

(** Sequencing of evaluations that may throw. *)
Definition bind {A B : Type} (m : exn + A) (k : A -> exn + B) : exn + B :=
  match m with
  | inl e => inl e
  | inr a => k a
  end.

Notation "'let*' x := m 'in' k" := (bind m (fun x => k))
  (at level 10, x name, m at level 100, k at level 200, only parsing).

(** [ToBoolean], which an [if] applies to its condition. *)
Definition ToBoolean (v : value) : bool :=
  match v with
  | JUndefined | JNull => false
  | JBoolean b => b
  | JNumber x => negb (is_zero x || is_nan x)
  | JString s => negb (String.eqb s "")
  | JObject _ | JFunction _ => true
  end.

(** What the property [hasOwnProperty] of an object is when it is found
    along the prototype chain: [Object.prototype.hasOwnProperty], which
    an object literal, what [JSON.parse] returns and a primitive
    inherit, or any other value ([undefined] for an object without
    prototype, a method of a class, ...). *)
Inductive method :=
| Builtin
| Other (v : value).

(** What [require(configPath)] evaluates to: [undefined] or [null], or
    an object, given by its own properties and by the [hasOwnProperty]
    it inherits.  A primitive counts as an object with its own
    properties (a number or a boolean has none).  The properties are
    data properties: reading one runs no code. *)
Inductive configuration :=
| Nullish
| Object (own : gmap string value) (inherited : method).

(** The expression [config.hasOwnProperty] on an object: an own
    property of that name shadows the inherited one. *)
Definition get_hasOwnProperty (own : gmap string value) (inherited : method) : method :=
  match own !! "hasOwnProperty" with
  | Some v => Other v
  | None => inherited
  end.

Section Facade.

(** What an operation of a backend returns (a promise). *)
Variable promise : Type.

(** The operations the facade forwards to. *)
Record backend := {
  bc_init : promise;
  bc_createClients : value -> promise;
  bc_installSmartContract : promise;
  bc_getContext : value -> value -> promise;
  bc_releaseContext : value -> promise;
  bc_invokeSmartContract : value -> value -> value -> value -> value -> promise;
  bc_queryState : value -> value -> value -> value -> promise
}.

(** A [Blockchain] object. *)
Record Blockchain := {
  bcType : string;
  bcObj : backend
}.

(** [require(configPath)]: the configuration, unless loading it
    throws. *)
Variable require : string -> exn + configuration.

(** [f.call(config, key)] for a function [f] that [config.hasOwnProperty]
    evaluates to and is not the built-in one: the value it returns,
    unless it throws.  The code calls it at most once for each key and
    always after the same calls, so the outcome is a function of the
    key; the function is taken to leave the configuration as it is. *)
Variable call : nat -> string -> exn + value.

(** The constructors of the three backends (loading the module, then
    [new fabric(configPath)], ...), which may throw. *)
Variable fabric : string -> exn + backend.
Variable sawtooth : string -> exn + backend.
Variable iroha : string -> exn + backend.

(** [config.hasOwnProperty(key)], as the condition of an [if]: reading
    the property of [undefined] or [null] throws a [TypeError], and so
    does calling a value that is not a function; the built-in function
    tells whether [key] is an own property; any other function answers
    what it answers. *)
Definition hasOwnProperty (config : configuration) (key : string) : exn + bool :=
  match config with
  | Nullish => inl TypeError
  | Object own inherited =>
      match get_hasOwnProperty own inherited with
      | Builtin => inr (bool_decide (is_Some (own !! key)))
      | Other (JFunction f) => let* v := call f key in inr (ToBoolean v)
      | Other _ => inl TypeError
      end
  end.

(** [new backend(configPath)], then the two assignments to [this]. *)
Definition construct (type : string) (ctor : string -> exn + backend)
    (configPath : string) : exn + Blockchain :=
  match ctor configPath with
  | inl e => inl e
  | inr obj => inr {| bcType := type; bcObj := obj |}
  end.

(** The constructor: the object, or what was thrown. *)
Definition constructor (configPath : string) : exn + Blockchain :=
  let* config := require configPath in
  let* is_fabric := hasOwnProperty config "fabric" in
  if is_fabric then construct "fabric" fabric configPath else
  let* is_sawtooth := hasOwnProperty config "sawtooth" in
  if is_sawtooth then construct "sawtooth" sawtooth configPath else
  let* is_iroha := hasOwnProperty config "iroha" in
  if is_iroha then construct "iroha" iroha configPath
  else inl (Error ("Unknown blockchain config file " ++ configPath)).

Definition gettype (this : Blockchain) : string := bcType this.

Definition init (this : Blockchain) : promise := bc_init (bcObj this).

Definition createClients (this : Blockchain) (number : value) : promise :=
  bc_createClients (bcObj this) number.

Definition installSmartContract (this : Blockchain) : promise :=
  bc_installSmartContract (bcObj this).

Definition getContext (this : Blockchain) (name args : value) : promise :=
  bc_getContext (bcObj this) name args.

Definition releaseContext (this : Blockchain) (context : value) : promise :=
  bc_releaseContext (bcObj this) context.

(** [timeout < 0], which the code evaluates for numbers only. *)
Definition negative (timeout : value) : bool :=
  match timeout with
  | JNumber x => (x <? 0)%float
  | _ => false
  end.

Definition invokeSmartContract (this : Blockchain)
    (context contractID contractVer args timeout : value) : promise :=
  if negb (String.eqb (typeof timeout) "number") || negative timeout then
    bc_invokeSmartContract (bcObj this) context contractID contractVer args (JNumber 120)
  else
    bc_invokeSmartContract (bcObj this) context contractID contractVer args timeout.

Definition queryState (this : Blockchain)
    (context contractID contractVer key : value) : promise :=
  bc_queryState (bcObj this) context contractID contractVer key.

End Facade.

Arguments bc_invokeSmartContract {promise}.
Arguments bcObj {promise}.
Arguments bcType {promise}.
Arguments invokeSmartContract {promise}.
Arguments constructor {promise}.
Arguments construct {promise}.
Arguments gettype {promise}.

Local Close Scope string_scope.

(** ** Order and rounding of binary64 numbers

    The definitions the statements about numbers are written with.  A
    binary64 number is read through [Prim2SF] as a sign, a mantissa and an
    exponent; the operations are those of [SpecFloat]. *)

Local Open Scope Z_scope.

(** A number's place in the order of the binary64 numbers: an integer
    that grows with the number (exponent first, mantissa second, for the
    canonical mantissas the format has), negated for negative numbers; the
    two zeros share the rank 0, and [NaN], which compares with nothing,
    is given 0 as well. *)
Definition SFrank (x : spec_float) : Z :=
  match x with
  | S754_zero _ => 0
  | S754_nan => 0
  | S754_infinity s => if s then (- 2 ^ 65)%Z else (2 ^ 65)%Z
  | S754_finite s m e =>
      let r := ((e + 1075) * 2 ^ 53 + Zpos m)%Z in
      if s then (- r)%Z else r
  end.

Definition rank (x : float) : Z := SFrank (Prim2SF x).

(** A truncated mantissa with its round and sticky bits, as one integer:
    twice the number of half units below the exact value, plus one when
    the value is strictly between two half units. *)
Definition enc (mrs : shr_record) : Z :=
  4 * shr_m mrs + (if shr_r mrs then 2 else 0) + (if shr_s mrs then 1 else 0).

Definition code (l : location) : Z :=
  match l with
  | loc_Exact => 0
  | loc_Inexact Lt => 1
  | loc_Inexact Eq => 2
  | loc_Inexact Gt => 3
  end.

(** The cell of the quotient [a / b] on the grid of integers and the open
    intervals between them. *)
Definition cell (a b : Z) : Z := 2 * (a / b) + (if a mod b =? 0 then 0 else 1).

(** Rounding to nearest, ties to even, of a value given by its cell in
    half units. *)
Definition rne (N : Z) : Z :=
  N / 4 + (if (N mod 4 =? 3) || ((N mod 4 =? 2) && Z.odd (N / 4)) then 1 else 0).

(** The number a rounded mantissa [M] at exponent [E] stands for. *)
Definition finish (s : bool) (M E : Z) : spec_float :=
  if M =? 0 then S754_zero s
  else if M <? 2 ^ 53 then
    (if E <=? 971 then S754_finite s (Z.to_pos M) E else S754_infinity s)
  else
    (if E + 1 <=? 971 then S754_finite s (Z.to_pos (2 ^ 52)) (E + 1) else S754_infinity s).

(** By how much [shr_fexp] shifts a mantissa [m] at exponent [e]. *)
Definition shift_of (m e : Z) : Z := Z.max 0 (fexp prec emax (Zdigits2 m + e) - e).

(** The mantissa of 1000 = [thousand * 2^-43]. *)
Definition thousand : Z := 8796093022208000.

(** For a number [m * 2^e]: the exponent of the quotient that
    [SFdiv_core_binary] returns, and the exponent it is rounded at. *)
Definition quotient_exponent (m : positive) (e : Z) : Z :=
  Z.max (Zpos (digits2_pos m) + e - 63) (-1074).

Definition quotient (m : positive) (e : Z) : Z :=
  (Zpos m * 2 ^ (e + 43 - quotient_exponent m e)) / thousand.

Definition rounding_exponent (m : positive) (e : Z) : Z :=
  quotient_exponent m e + shift_of (quotient m e) (quotient_exponent m e).

(** The number and the unit of the rounding grid, both scaled to integers. *)
Definition scaled (m : positive) (e : Z) : Z := Zpos m * 2 ^ (e + 1117).
Definition unit_at (E : Z) : Z := thousand * 2 ^ (E + 1074).

(** The rounded mantissa of [m * 2^e / 1000]. *)
Definition rounded (m : positive) (e : Z) : Z :=
  rne (cell (2 * scaled m e) (unit_at (rounding_exponent m e))).

(** The rank of the quotient of a positive finite number by 1000. *)
Definition quotient_rank (m : positive) (e : Z) : Z :=
  SFrank (finish false (rounded m e) (rounding_exponent m e)).

(** A number without a fractional part: [NaN], an infinity, a zero, or
    [m * 2^e] with [2^-e] dividing [m] when [e] is negative. *)
Definition SFintegral (a : spec_float) : Prop :=
  match a with
  | S754_finite _ m e => 0 <= e \/ Zpos m mod 2 ^ (- e) = 0
  | _ => True
  end.

Definition integral (x : float) : Prop := SFintegral (Prim2SF x).

Local Close Scope Z_scope.

(** ** Vocabulary of the statements *)

(** [stat.status === 'success'] *)
Definition successful (stat : txStatus) : bool := String.eqb (status stat) "success".

(** The pair of a running minimum and maximum after more values. *)
Definition track_all (xs : list numeric) (p : numeric * numeric) : numeric * numeric :=
  fold_left (fun p x => track x (fst p) (snd p)) xs p.

(** The running minimum and maximum of the delay after more delays. *)
Definition min_delay (ds : list float) (m : float) : float :=
  fold_left (fun m d => if (d <? m)%float then d else m) ds m.

Definition max_delay (ds : list float) (m : float) : float :=
  fold_left (fun m d => if (m <? d)%float then d else m) ds m.

(** The sum as the loop adds it up: from the left, every addition rounded. *)
Definition sum_delay (ds : list float) (s : float) : float :=
  fold_left (fun s d => (s + d)%float) ds s.

(** The [throughput] object after counting more slots. *)
Definition count_slots (ks : list string) (t : gmap string nat) : gmap string nat :=
  fold_left (fun t k => count_slot k t) ks t.

(** The delays and the slots of the successful results, in their order. *)
Definition latencies (results : list txStatus) : list float :=
  map latency (filter (fun r => successful r = true) results).

Definition slots (results : list txStatus) : list string :=
  map (fun r => slot (time_valid r)) (filter (fun r => successful r = true) results).

(** The times the loop tracks: [time_create] of every result, and
    [time_valid] of the successful ones. *)
Definition creates (results : list txStatus) : list numeric :=
  map time_create results.

Definition valids (results : list txStatus) : list numeric :=
  map time_valid (filter (fun r => successful r = true) results).

(** Equality of two numbers as values: [x === y], or both are [NaN]. *)
Definition same_number (x y : float) : bool :=
  (x =? y)%float || (is_nan x && is_nan y).

(** The numbers among the values of a time field. *)
Definition number_of (v : numeric) : option float :=
  match v with
  | NUndefined => None
  | NNumber x => Some x
  end.

Definition numbers (xs : list numeric) : list float := omap number_of xs.

(** What a running minimum and maximum hold after the values [xs]: nothing
    when no number was seen, and otherwise two of the numbers seen that
    bound all of them. *)
Definition tracked (xs : list numeric) (p : numeric * numeric) : Prop :=
  match p with
  | (NUndefined, NUndefined) => numbers xs = []
  | (NNumber a, NNumber b) =>
      is_nan a = false /\ is_nan b = false /\
      a ∈ numbers xs /\ b ∈ numbers xs /\
      forall x, x ∈ numbers xs -> (rank a <= rank x <= rank b)%Z
  | _ => False
  end.

(** No value of the list is the number [NaN]. *)
Definition no_NaN (xs : list numeric) : Prop :=
  Forall (fun x => is_nan x = false) (numbers xs).

(** How often a slot occurs. *)
Definition tally (k : string) (ks : list string) : nat :=
  length (filter (fun k' => k' = k) ks).

(** The count of a slot, zero when the property is undefined. *)
Definition slot_count (t : gmap string nat) (k : string) : nat := default 0 (t !! k).

(** [v] is the number [NaN]. *)
Definition is_NaN (v : numeric) : bool :=
  match v with
  | NUndefined => false
  | NNumber x => is_nan x
  end.

(** No time the code reads from the result is [NaN]: [time_create], and
    [time_valid] when the transaction succeeded. *)
Definition timed (stat : txStatus) : Prop :=
  is_NaN (time_create stat) = false /\
  (successful stat = true -> is_NaN (time_valid stat) = false).

(** Two statistics agree on every field but the sum of the delays. *)
Definition agree_but_sum (a b : txStatistics) : Prop :=
  succ a = succ b /\ fail a = fail b /\
  same_number (Range.min (create a)) (Range.min (create b)) = true /\
  same_number (Range.max (create a)) (Range.max (create b)) = true /\
  same_number (Range.min (valid a)) (Range.min (valid b)) = true /\
  same_number (Range.max (valid a)) (Range.max (valid b)) = true /\
  same_number (Delay.min (delay a)) (Delay.min (delay b)) = true /\
  same_number (Delay.max (delay a)) (Delay.max (delay b)) = true /\
  throughput a = throughput b /\ out a = out b.

(** A result with the given status and times. *)
Definition tx (st : string) (c v : numeric) : txStatus :=
  {| id := "tx"; status := st; time_create := c; time_valid := v; result := JUndefined |}.

Local Set Warnings "-register-all".

(** A way to reduce results: aggregate a group of results, or merge the
    statistics of several reductions into the first of them. *)
Inductive plan :=
| Aggregate (records : list txStatus)
| Merge (first : plan) (others : list plan).

(** The statistics a plan ends with: [mergeDefaultTxStats] is called on
    the array of the statistics of [first] and [others], which leaves the
    merged statistics in its first element. *)
Fixpoint run (p : plan) : txStatistics :=
  match p with
  | Aggregate records => getDefaultTxStats records
  | Merge first others => default (run first) (merged (run first :: map run others))
  end.

(** The results a plan reduces, group after group. *)
Fixpoint records_of (p : plan) : list txStatus :=
  match p with
  | Aggregate records => records
  | Merge first others => records_of first ++ concat (map records_of others)
  end.

(** Induction on plans, with the hypothesis for every merged plan. *)
Fixpoint plan_induction (P : plan -> Prop)
    (HA : forall records, P (Aggregate records))
    (HM : forall first others, P first -> Forall P others -> P (Merge first others))
    (p : plan) : P p :=
  match p with
  | Aggregate records => HA records
  | Merge first others =>
      HM first others (plan_induction P HA HM first)
        ((fix all (ps : list plan) : Forall P ps :=
            match ps with
            | [] => List.Forall_nil P
            | q :: qs => List.Forall_cons P q qs (plan_induction P HA HM q) (all qs)
            end) others)
  end.

(** The counts of [s] are those of the results [rs]. *)
Definition summarises (s : txStatistics) (rs : list txStatus) : Prop :=
  succ s = length (filter (fun r => successful r = true) rs) /\
  fail s = length (filter (fun r => successful r = false) rs) /\
  throughput s = count_slots (slots rs) ∅.

(** Three successful results with delays of 0.1, 0.2 and 0.3 seconds. *)
Definition tx_a := tx "success" (NNumber 1000) (NNumber 1100).
Definition tx_b := tx "success" (NNumber 1000) (NNumber 1200).
Definition tx_c := tx "success" (NNumber 1000) (NNumber 1300).

(** A backend whose operations resolve to the timeout they were given
    ([undefined] for the operations that take none). *)
Definition echo : backend value := {|
  bc_init := JUndefined;
  bc_createClients := fun _ => JUndefined;
  bc_installSmartContract := JUndefined;
  bc_getContext := fun _ _ => JUndefined;
  bc_releaseContext := fun _ => JUndefined;
  bc_invokeSmartContract := fun _ _ _ _ timeout => timeout;
  bc_queryState := fun _ _ _ _ => JUndefined
|}.

Definition echo_chain : Blockchain value := {| bcType := "fabric"; bcObj := echo |}.

(** A backend constructor that returns [echo], and a [require] that loads
    a configuration object with no properties. *)
Definition new_echo (configPath : string) : exn + backend value := inr echo.


(** Configurations with no function among their properties: none is
    called. *)
Definition no_call (f : nat) (key : string) : exn + value := inr JUndefined.


Definition load_shadowed_fabric (configPath : string) : exn + configuration :=
  inr (Object {[ "hasOwnProperty" := JNumber 1; "fabric" := JObject 0 ]} Builtin).


(** [v] is a finite number. *)
Definition finite_time (v : numeric) : bool :=
  match v with
  | NUndefined => false
  | NNumber x => is_finite x
  end.

(** A result with the times the code reads: [time_create] is a finite
    number, and so is [time_valid] when the transaction succeeded. *)
Definition well_formed (stat : txStatus) : Prop :=
  finite_time (time_create stat) = true /\
  (successful stat = true -> finite_time (time_valid stat) = true).

(** The sum of the counts of all the slots of a [throughput] object. *)
Definition total_count (t : gmap string nat) : nat :=
  map_fold (fun _ c acc => c + acc) 0 t.

(** The successful results of a sequence, in their order. *)
Definition successes (results : list txStatus) : list txStatus :=
  filter (fun r => successful r = true) results.

(** A result that lacks one of the two times the delay is computed from. *)
Definition lacks_a_time (stat : txStatus) : Prop :=
  time_valid stat = NUndefined \/ time_create stat = NUndefined.

(** The groups of results a plan aggregates, in the order of
    [records_of]. *)
Fixpoint groups (p : plan) : list (list txStatus) :=
  match p with
  | Aggregate records => [records]
  | Merge first others => groups first ++ concat (map groups others)
  end.

(** [m] is the least of the start value [m0] and the numbers of [ds]. *)
Definition least_of (m m0 : float) (ds : list float) : Prop :=
  is_nan m = false /\ (m = m0 \/ m ∈ ds) /\ (rank m <= rank m0)%Z /\
  forall d, d ∈ ds -> is_nan d = false -> (rank m <= rank d)%Z.

(** [m] is the greatest of the start value [m0] and the numbers of [ds]. *)
Definition greatest_of (m m0 : float) (ds : list float) : Prop :=
  is_nan m = false /\ (m = m0 \/ m ∈ ds) /\ (rank m0 <= rank m)%Z /\
  forall d, d ∈ ds -> is_nan d = false -> (rank d <= rank m)%Z.

(** The bounds of the delay of [s] are those of the results [rs]. *)
Definition delay_bounds_of (s : txStatistics) (rs : list txStatus) : Prop :=
  least_of (Delay.min (delay s)) 100000 (latencies rs) /\
  greatest_of (Delay.max (delay s)) 0 (latencies rs).

(** [g] holds, divided by 1000, the least and the greatest of the
    numbers [xs]. *)
Definition range_of (g : Range.t) (xs : list float) : Prop :=
  is_nan (Range.min g) = false /\ is_nan (Range.max g) = false /\
  (exists a, a ∈ xs /\ Range.min g = (a / 1000)%float) /\
  (exists b, b ∈ xs /\ Range.max g = (b / 1000)%float) /\
  forall x, x ∈ xs -> (rank (Range.min g) <= rank (x / 1000) <= rank (Range.max g))%Z.

(** The bounds of [create] and [valid] of [s] are those of the well
    formed results [rs]. *)
Definition time_bounds_of (s : txStatistics) (rs : list txStatus) : Prop :=
  Forall well_formed rs /\
  range_of (create s) (numbers (creates rs)) /\
  range_of (valid s) (numbers (valids rs)).

(** A group of well formed results of which one succeeded. *)
Definition productive (rs : list txStatus) : Prop :=
  Forall well_formed rs /\ (0 < succ (getDefaultTxStats rs))%nat.

(** A configuration, as a module may export it, with an own method
    [hasOwnProperty] (the function 7) and the key ['fabric']; the method
    answers [false] for ['fabric'], [true] for ['sawtooth'] and throws
    for any other key. *)
Definition load_method (configPath : string) : exn + configuration :=
  inr (Object {[ "hasOwnProperty" := JFunction 7; "fabric" := JObject 0 ]} Builtin).

Definition call_method (f : nat) (key : string) : exn + value :=
  if String.eqb key "fabric" then inr (JBoolean false)
  else if String.eqb key "sawtooth" then inr (JNumber 1)
  else inl (Thrown (JString "asked too much")).

(** [config.hasOwnProperty] is not something to call: the configuration
    is [undefined] or [null], or the property is not a function. *)
Definition not_callable (config : configuration) : Prop :=
  match config with
  | Nullish => True
  | Object own inherited =>
      match get_hasOwnProperty own inherited with
      | Builtin | Other (JFunction _) => False
      | Other _ => True
      end
  end.

(** [config.hasOwnProperty] is the function [f], not the built-in one. *)
Definition method_is (config : configuration) (f : nat) : Prop :=
  match config with
  | Nullish => False
  | Object own inherited => get_hasOwnProperty own inherited = Other (JFunction f)
  end.

(** The results that have a [time_create]. *)
Definition with_time_create (results : list txStatus) : list txStatus :=
  filter (fun r => is_undefined (time_create r) = false) results.

(** The names of the members of [Object.prototype], which every
    [throughput] object inherits (ECMA-262, with its annex B). *)
Definition Object_prototype_members : list string :=
  ["constructor"; "hasOwnProperty"; "isPrototypeOf"; "propertyIsEnumerable";
   "toLocaleString"; "toString"; "valueOf"; "__proto__";
   "__defineGetter__"; "__defineSetter__"; "__lookupGetter__"; "__lookupSetter__"].

(** A character a slot can start with: a decimal digit, the sign, or the
    first letter of ["NaN"] and ["Infinity"]. *)
Definition slot_start (c : Ascii.ascii) : bool :=
  let n := Ascii.nat_of_ascii c in
  ((48 <=? n) && (n <=? 57)) || (n =? 45) || (n =? 78) || (n =? 73).

Definition starts_as_slot (s : string) : bool :=
  match s with
  | EmptyString => false
  | String c _ => slot_start c
  end.

(** * Properties *)

(** ** The code on examples *)

(** Closed statements are settled by evaluating the code. *)
Ltac evaluate := repeat apply conj; vm_compute; reflexivity.

Example Math_round_half_up :
  Js.Math_round 1.5 = 2%float /\ Js.Math_round 2.5 = 3%float /\
  Js.Math_round (-2.5) = (-2)%float /\ Js.Math_round (-0.5) = neg_zero /\
  Js.Math_round 0x1.fffffffffffffp-2 = 0%float /\
  Js.Math_round 1500 = 1500%float /\ Js.Math_round nan = nan.
Proof. evaluate. Qed.

Example Number_toString_integral :
  Js.Number_toString 1500 = "1500"%string /\
  Js.Number_toString (-2) = "-2"%string /\
  Js.Number_toString neg_zero = "0"%string /\
  Js.Number_toString nan = "NaN"%string /\
  Js.Number_toString 0x1p53 = "9007199254740992"%string /\
  Js.Number_toString 0x1p60 = "1152921504606847000"%string /\
  Js.Number_toString 0x1p70 = "1.1805916207174113e+21"%string /\
  Js.Number_toString 0x1.fffffffffffffp1023 = "1.7976931348623157e+308"%string.
Proof. evaluate. Qed.

(** The statistics of one successful and one failed result. *)
Example statistics_of_two_results :
  getDefaultTxStats
    [ {| id := "a"; status := "success"; time_create := NNumber 1000;
         time_valid := NNumber 1500; result := JUndefined |};
      {| id := "b"; status := "failed"; time_create := NNumber 2000;
         time_valid := NUndefined; result := JUndefined |} ]
  = {| succ := 1; fail := 1;
       create := {| Range.min := 1; Range.max := 2 |};
       valid := {| Range.min := 1.5; Range.max := 1.5 |};
       delay := {| Delay.min := 0.5; Delay.max := 0.5; Delay.sum := 0.5 |};
       throughput := {[ "1500"%string := 1 ]};
       out := [] |}.
Proof. evaluate. Qed.

(** Merging adds the counts and the slots. *)
Example merge_of_two_statistics :
  merged
    [ {| succ := 2; fail := 0;
         create := {| Range.min := 1; Range.max := 2 |};
         valid := {| Range.min := 1.5; Range.max := 2.5 |};
         delay := {| Delay.min := 0.5; Delay.max := 0.5; Delay.sum := 1 |};
         throughput := {[ "1500"%string := 1; "2500"%string := 1 ]};
         out := [JNumber 1] |};
      {| succ := 0; fail := 3;
         create := {| Range.min := 0.5; Range.max := 1.5 |};
         valid := {| Range.min := nan; Range.max := nan |};
         delay := {| Delay.min := 100000; Delay.max := 0; Delay.sum := 0 |};
         throughput := ∅;
         out := [JNumber 2] |} ]
  = Some {| succ := 2; fail := 3;
            create := {| Range.min := 0.5; Range.max := 2 |};
            valid := {| Range.min := 1.5; Range.max := 2.5 |};
            delay := {| Delay.min := 0.5; Delay.max := 0.5; Delay.sum := 1 |};
            throughput := {[ "1500"%string := 1; "2500"%string := 1 ]};
            out := [JNumber 1; JNumber 2] |}.
Proof. evaluate. Qed.

(** ** The order of binary64 numbers *)

Lemma digits2_pos_size m : digits2_pos m = Pos.size m.
Proof. induction m; simpl; congruence. Qed.

Lemma valid_finite_bounds s m e :
  valid_binary (S754_finite s m e) = true ->
  (0 < Zpos m < 2 ^ 53 /\ -1074 <= e <= 971)%Z.
Proof.
  unfold SpecFloat.valid_binary, bounded, canonical_mantissa, fexp, SpecFloat.emin.
  rewrite andb_true_iff, Z.eqb_eq, Z.leb_le, digits2_pos_size.
  intros [Hc He].
  change prec with 53%Z in *. change emax with 1024%Z in *.
  assert (Hs := Pos.size_gt m).
  assert (Hd : (Zpos (Pos.size m) <= 53)%Z) by lia.
  split; [split; [lia|] | lia].
  apply Z.lt_le_trans with (2 ^ Zpos (Pos.size m))%Z.
  - rewrite <- Pos2Z.inj_pow. lia.
  - apply Z.pow_le_mono_r; lia.
Qed.

Lemma SFcompare_rank a b :
  valid_binary a = true -> valid_binary b = true ->
  a <> S754_nan -> b <> S754_nan ->
  SFcompare a b = Some (SFrank a ?= SFrank b)%Z.
Proof.
  intros Va Vb Na Nb.
  destruct a as [sa|sa| |sa ma ea], b as [sb|sb| |sb mb eb]; try congruence;
    try (apply valid_finite_bounds in Va); try (apply valid_finite_bounds in Vb);
    cbn [SFcompare SFrank].
  all: try (destruct sa); try (destruct sb); try reflexivity.
  all: try (f_equal; symmetry;
            first [ apply Z.compare_lt_iff | apply Z.compare_gt_iff | apply Z.compare_eq_iff ]; lia).
  - (* both negative *)
    f_equal. rewrite Pos.compare_cont_spec. cbn [Pos.switch_Eq].
    destruct (Z.compare_spec ea eb) as [->|H|H].
    + destruct (Pos.compare_spec ma mb) as [E|E|E]; cbn; symmetry;
        first [ apply Z.compare_lt_iff | apply Z.compare_gt_iff | apply Z.compare_eq_iff ]; lia.
    + symmetry. apply Z.compare_gt_iff. nia.
    + symmetry. apply Z.compare_lt_iff. nia.
  - f_equal. rewrite Pos.compare_cont_spec. cbn [Pos.switch_Eq].
    destruct (Z.compare_spec ea eb) as [->|H|H].
    + destruct (Pos.compare_spec ma mb) as [E|E|E]; cbn; symmetry;
        first [ apply Z.compare_lt_iff | apply Z.compare_gt_iff | apply Z.compare_eq_iff ]; lia.
    + symmetry. apply Z.compare_lt_iff. nia.
    + symmetry. apply Z.compare_gt_iff. nia.
Qed.

Lemma SFcompare_refl a : a <> S754_nan -> SFcompare a a = Some Eq.
Proof.
  destruct a as [s|s| |s m e]; try congruence; intros _; cbn.
  - reflexivity.
  - destruct s; reflexivity.
  - rewrite Z.compare_refl, Pos.compare_cont_refl. destruct s; reflexivity.
Qed.

Lemma is_nan_true x : is_nan x = true <-> Prim2SF x = S754_nan.
Proof.
  unfold is_nan. rewrite FloatAxioms.eqb_spec. unfold SFeqb. split.
  - destruct (Prim2SF x) eqn:E; try reflexivity;
      rewrite SFcompare_refl by discriminate; discriminate.
  - intros ->. reflexivity.
Qed.

Lemma is_nan_false x : is_nan x = false <-> Prim2SF x <> S754_nan.
Proof.
  pose proof (is_nan_true x) as [H1 H2].
  destruct (is_nan x); split; intros; try congruence.
  - exfalso. auto.
  - intros E. specialize (H2 E). discriminate.
Qed.

Lemma compare_rank x y :
  is_nan x = false -> is_nan y = false ->
  SFcompare (Prim2SF x) (Prim2SF y) = Some (rank x ?= rank y)%Z.
Proof.
  intros Hx Hy. apply is_nan_false in Hx, Hy.
  apply SFcompare_rank; auto using Prim2SF_valid.
Qed.

Lemma ltb_rank x y :
  is_nan x = false -> is_nan y = false -> (x <? y)%float = (rank x <? rank y)%Z.
Proof.
  intros Hx Hy. rewrite FloatAxioms.ltb_spec. unfold SFltb, Z.ltb.
  rewrite compare_rank by assumption. reflexivity.
Qed.

Lemma leb_rank x y :
  is_nan x = false -> is_nan y = false -> (x <=? y)%float = (rank x <=? rank y)%Z.
Proof.
  intros Hx Hy. rewrite FloatAxioms.leb_spec. unfold SFleb, Z.leb.
  rewrite compare_rank by assumption. destruct (rank x ?= rank y)%Z; reflexivity.
Qed.

Lemma eqb_rank x y :
  is_nan x = false -> is_nan y = false -> (x =? y)%float = (rank x =? rank y)%Z.
Proof.
  intros Hx Hy. rewrite FloatAxioms.eqb_spec. unfold SFeqb.
  rewrite compare_rank by assumption.
  destruct (Z.compare_spec (rank x) (rank y)) as [E|E|E]; symmetry.
  - apply Z.eqb_eq. assumption.
  - apply Z.eqb_neq. lia.
  - apply Z.eqb_neq. lia.
Qed.

Lemma SFcompare_nan_l a b : a = S754_nan -> SFcompare a b = None.
Proof. intros ->. reflexivity. Qed.

Lemma SFcompare_nan_r a b : b = S754_nan -> SFcompare a b = None.
Proof. intros ->. destruct a; reflexivity. Qed.

Lemma ltb_nan_l x y : is_nan x = true -> (x <? y)%float = false.
Proof.
  intros H%is_nan_true. rewrite FloatAxioms.ltb_spec. unfold SFltb.
  rewrite SFcompare_nan_l by assumption. reflexivity.
Qed.

Lemma ltb_nan_r x y : is_nan y = true -> (x <? y)%float = false.
Proof.
  intros H%is_nan_true. rewrite FloatAxioms.ltb_spec. unfold SFltb.
  rewrite SFcompare_nan_r by assumption. reflexivity.
Qed.

Lemma leb_nan_l x y : is_nan x = true -> (x <=? y)%float = false.
Proof.
  intros H%is_nan_true. rewrite FloatAxioms.leb_spec. unfold SFleb.
  rewrite SFcompare_nan_l by assumption. reflexivity.
Qed.

Lemma leb_nan_r x y : is_nan y = true -> (x <=? y)%float = false.
Proof.
  intros H%is_nan_true. rewrite FloatAxioms.leb_spec. unfold SFleb.
  rewrite SFcompare_nan_r by assumption. reflexivity.
Qed.

Lemma ltb_true_number x y :
  (x <? y)%float = true -> is_nan x = false /\ is_nan y = false.
Proof.
  intros H. split.
  - destruct (is_nan x) eqn:E; [|reflexivity]. rewrite ltb_nan_l in H; congruence.
  - destruct (is_nan y) eqn:E; [|reflexivity]. rewrite ltb_nan_r in H; congruence.
Qed.

Local Open Scope Z_scope.

(** ** Shifts with round and sticky bits *)

Lemma enc_record_of_loc m l : enc (shr_record_of_loc m l) = 4 * m + code l.
Proof.
  destruct l as [|[]]; unfold enc, code;
    cbn [shr_record_of_loc shr_m shr_r shr_s]; lia.
Qed.

Lemma shr_m_record_of_loc m l : shr_m (shr_record_of_loc m l) = m.
Proof. destruct l as [|[]]; reflexivity. Qed.

Lemma shr_1_spec mrs :
  0 <= shr_m mrs ->
  0 <= shr_m (shr_1 mrs) /\
  enc (shr_1 mrs) = enc mrs / 2 + (if enc mrs mod 4 =? 1 then 1 else 0).
Proof.
  destruct mrs as [m r s]. cbn [shr_m]. intros Hm.
  destruct m as [|p|p]; [| |lia].
  - destruct r, s; split; try reflexivity; cbn; lia.
  - destruct p as [p|p|]; destruct r, s; unfold enc; cbn [shr_1 shr_m shr_r shr_s orb];
      (split; [lia|]).
    all: match goal with
         | |- _ = ?N / 2 + (if ?N mod 4 =? 1 then 1 else 0) =>
             let H := fresh in
             destruct (Z.eqb_spec (N mod 4) 1) as [H|H];
             Z.div_mod_to_equations; lia
         end.
Qed.

Lemma cell_double a b :
  0 <= a -> 0 < b ->
  cell a b / 2 + (if cell a b mod 4 =? 1 then 1 else 0) = cell a (b * 2).
Proof.
  intros Ha Hb. unfold cell.
  rewrite <- Z.div_div by lia.
  rewrite Z.rem_mul_r by lia.
  pose proof (Z.mod_pos_bound a b Hb) as Hr.
  pose proof (Z.mod_pos_bound (a / b) 2 ltac:(lia)) as Hu.
  set (u := a / b) in *. set (r := a mod b) in *.
  assert (Hu2 : u mod 2 = 0 \/ u mod 2 = 1) by lia.
  destruct Hu2 as [E|E]; rewrite E.
  - rewrite Z.mul_0_r, Z.add_0_r.
    destruct (Z.eqb_spec r 0);
      match goal with
      | |- context [if ?N mod 4 =? 1 then _ else _] => destruct (Z.eqb_spec (N mod 4) 1)
      end; Z.div_mod_to_equations; lia.
  - rewrite Z.mul_1_r.
    destruct (Z.eqb_spec (r + b) 0); [lia|].
    destruct (Z.eqb_spec r 0);
      match goal with
      | |- context [if ?N mod 4 =? 1 then _ else _] => destruct (Z.eqb_spec (N mod 4) 1)
      end; Z.div_mod_to_equations; lia.
Qed.

Lemma pow2_xI p : 2 ^ Zpos p~1 = 2 * 2 ^ Zpos p * 2 ^ Zpos p.
Proof.
  replace (Zpos p~1) with (Zpos p + Zpos p + 1) by lia.
  rewrite !Z.pow_add_r by lia. ring.
Qed.

Lemma pow2_xO p : 2 ^ Zpos p~0 = 2 ^ Zpos p * 2 ^ Zpos p.
Proof.
  replace (Zpos p~0) with (Zpos p + Zpos p) by lia.
  rewrite !Z.pow_add_r by lia. ring.
Qed.

Lemma iter_shr_1 p : forall mrs a b,
  0 <= shr_m mrs -> 0 <= a -> 0 < b -> enc mrs = cell a b ->
  0 <= shr_m (SpecFloat.iter_pos shr_1 p mrs) /\
  enc (SpecFloat.iter_pos shr_1 p mrs) = cell a (b * 2 ^ Zpos p).
Proof.
  induction p as [p IH|p IH|]; intros mrs a b Hm Ha Hb He; cbn [SpecFloat.iter_pos].
  - destruct (shr_1_spec mrs Hm) as [H1 E1].
    rewrite He, cell_double in E1 by assumption.
    destruct (IH _ a (b * 2) H1 Ha ltac:(lia) E1) as [H2 E2].
    destruct (IH _ a (b * 2 * 2 ^ Zpos p) H2 Ha ltac:(lia) E2) as [H3 E3].
    split; [assumption|]. rewrite E3, pow2_xI. f_equal. ring.
  - destruct (IH _ a b Hm Ha Hb He) as [H2 E2].
    destruct (IH _ a (b * 2 ^ Zpos p) H2 Ha ltac:(lia) E2) as [H3 E3].
    split; [assumption|]. rewrite E3, pow2_xO. f_equal. ring.
  - destruct (shr_1_spec mrs Hm) as [H1 E1].
    rewrite He, cell_double in E1 by assumption.
    split; [assumption|]. rewrite E1. reflexivity.
Qed.

(** ** The shape of a rounded result *)

Lemma fexp_eq k : fexp prec emax k = Z.max (k - 53) (-1074).
Proof. reflexivity. Qed.

Lemma Zdigits2_bounds q :
  0 < q -> 2 ^ (Zdigits2 q - 1) <= q < 2 ^ Zdigits2 q.
Proof.
  destruct q as [|p|p]; try lia. intros _. cbn [Zdigits2].
  rewrite digits2_pos_size.
  pose proof (Pos.size_gt p) as Hgt. pose proof (Pos.size_le p) as Hle.
  assert (Hgt' : Zpos p < 2 ^ Zpos (Pos.size p)).
  { rewrite <- Pos2Z.inj_pow. lia. }
  assert (Hle' : 2 ^ Zpos (Pos.size p) <= 2 * Zpos p).
  { rewrite <- Pos2Z.inj_pow. lia. }
  split; [|assumption].
  replace (Zpos (Pos.size p)) with ((Zpos (Pos.size p) - 1) + 1) in Hle' by lia.
  rewrite Z.pow_add_r in Hle' by lia. lia.
Qed.

Lemma Zdigits2_nonneg q : 0 <= q -> 0 <= Zdigits2 q.
Proof. destruct q; cbn; lia. Qed.

Lemma shift_of_nonneg m e : 0 <= shift_of m e.
Proof. unfold shift_of. lia. Qed.

Lemma shift_of_exponent m e : -1074 <= e + shift_of m e.
Proof. unfold shift_of. rewrite fexp_eq. lia. Qed.

Lemma shift_of_digits m e : Zdigits2 m - 53 <= shift_of m e.
Proof. unfold shift_of. rewrite fexp_eq. lia. Qed.

Lemma shr_fexp_spec m e l a b :
  0 <= m -> 0 <= a -> 0 < b -> 4 * m + code l = cell a b ->
  exists mrs,
    shr_fexp prec emax m e l = (mrs, e + shift_of m e) /\
    0 <= shr_m mrs /\ enc mrs = cell a (b * 2 ^ shift_of m e).
Proof.
  intros Hm Ha Hb He. unfold shr_fexp, shr, shift_of.
  destruct (fexp prec emax (Zdigits2 m + e) - e) as [|p|p] eqn:En.
  - eexists. split; [rewrite Z.add_0_r; reflexivity|].
    rewrite shr_m_record_of_loc, enc_record_of_loc, Z.mul_1_r. auto.
  - rewrite Z.max_r by lia.
    destruct (iter_shr_1 p (shr_record_of_loc m l) a b) as [H1 H2];
      rewrite ?shr_m_record_of_loc, ?enc_record_of_loc; auto.
    eexists. split; [reflexivity|]. auto.
  - rewrite Z.max_l by lia.
    eexists. split; [rewrite Z.add_0_r; reflexivity|].
    rewrite shr_m_record_of_loc, enc_record_of_loc, Z.mul_1_r. auto.
Qed.

Lemma round_nearest_even_rne mrs :
  round_nearest_even (shr_m mrs) (loc_of_shr_record mrs) = rne (enc mrs).
Proof.
  destruct mrs as [m r s]. unfold rne, enc. cbn [shr_m shr_r shr_s].
  destruct r, s; cbn [loc_of_shr_record round_nearest_even].
  - assert (E1 : (4 * m + 2 + 1) mod 4 = 3) by (Z.div_mod_to_equations; lia).
    assert (E2 : (4 * m + 2 + 1) / 4 = m) by (Z.div_mod_to_equations; lia).
    rewrite E1, E2. reflexivity.
  - assert (E1 : (4 * m + 2 + 0) mod 4 = 2) by (Z.div_mod_to_equations; lia).
    assert (E2 : (4 * m + 2 + 0) / 4 = m) by (Z.div_mod_to_equations; lia).
    rewrite E1, E2. cbn [Z.eqb orb andb]. rewrite <- Z.negb_even.
    destruct (Z.even m); cbn; lia.
  - assert (E1 : (4 * m + 0 + 1) mod 4 = 1) by (Z.div_mod_to_equations; lia).
    assert (E2 : (4 * m + 0 + 1) / 4 = m) by (Z.div_mod_to_equations; lia).
    rewrite E1, E2. cbn. lia.
  - assert (E1 : (4 * m + 0 + 0) mod 4 = 0) by (Z.div_mod_to_equations; lia).
    assert (E2 : (4 * m + 0 + 0) / 4 = m) by (Z.div_mod_to_equations; lia).
    rewrite E1, E2. cbn. lia.
Qed.

Lemma rne_bounds N : N / 4 <= rne N <= N / 4 + 1.
Proof.
  unfold rne.
  destruct ((N mod 4 =? 3) || (N mod 4 =? 2) && Z.odd (N / 4))%bool; lia.
Qed.

Lemma cell_quarter a b : 0 <= a -> 0 < b -> cell a b / 4 = a / (b * 2).
Proof.
  intros Ha Hb. unfold cell. rewrite <- Z.div_div by lia.
  destruct (a mod b =? 0); Z.div_mod_to_equations; lia.
Qed.

(** The second shift of [binary_round_aux], after rounding: only a
    mantissa that rounding carried to 2^53 is shifted, by one. *)
Lemma round_finish s M E :
  0 <= M <= 2 ^ 53 -> -1074 <= E ->
  (let '(mrs, e) := shr_fexp prec emax M E loc_Exact in
   match shr_m mrs with
   | Z0 => S754_zero s
   | Zpos m => if e <=? emax - prec then S754_finite s m e else S754_infinity s
   | Zneg _ => S754_nan
   end) = finish s M E.
Proof.
  intros HM HE. unfold finish.
  destruct (Z.eqb_spec M 0) as [->|H0].
  - unfold shr_fexp, shr. cbn [Zdigits2]. rewrite fexp_eq.
    destruct (Z.max (0 + E - 53) (-1074) - E) eqn:En; try lia. all: reflexivity.
  - destruct (Z.ltb_spec M (2 ^ 53)) as [Hlt|Hge].
    + pose proof (Zdigits2_bounds M ltac:(lia)) as [Hd _].
      assert (Hd53 : Zdigits2 M <= 53).
      { destruct (Z.le_gt_cases (Zdigits2 M) 53) as [|Hgt]; [assumption|].
        assert (2 ^ 53 <= 2 ^ (Zdigits2 M - 1)) by (apply Z.pow_le_mono_r; lia). lia. }
      unfold shr_fexp, shr. rewrite fexp_eq.
      destruct (Z.max (Zdigits2 M + E - 53) (-1074) - E) eqn:En; try lia.
      all: cbn [shr_record_of_loc shr_m]; destruct M; try lia; reflexivity.
    + assert (M = 2 ^ 53) as -> by lia.
      unfold shr_fexp, shr. rewrite fexp_eq. cbn [Zdigits2].
      change (Zpos (digits2_pos (Z.to_pos (2 ^ 53)))) with 54.
      change (Zdigits2 (2 ^ 53)) with 54.
      replace (Z.max (54 + E - 53) (-1074) - E) with 1 by lia.
      reflexivity.
Qed.

Lemma binary_round_aux_shape s m e l a b :
  0 <= m -> 0 <= a -> 0 < b -> 4 * m + code l = cell a b ->
  binary_round_aux prec emax s m e l
  = finish s (rne (cell a (b * 2 ^ shift_of m e))) (e + shift_of m e).
Proof.
  intros Hm Ha Hb He. unfold binary_round_aux.
  destruct (shr_fexp_spec m e l a b Hm Ha Hb He) as (mrs & -> & Hmrs & Henc).
  rewrite round_nearest_even_rne, Henc.
  apply round_finish; [|apply shift_of_exponent].
  pose proof (shift_of_nonneg m e) as Hn. pose proof (shift_of_digits m e) as Hd.
  set (n := shift_of m e) in *.
  assert (Hp : 0 < 2 ^ n) by (apply Z.pow_pos_nonneg; lia).
  pose proof (rne_bounds (cell a (b * 2 ^ n))) as [Hlo Hhi].
  rewrite cell_quarter in Hlo, Hhi by lia.
  assert (Hq : a / (b * 2 ^ n * 2) < 2 ^ 53).
  { assert (Em : m = a / (b * 2)).
    { rewrite <- cell_quarter, <- He by lia. destruct l as [|[]]; cbn [code];
        Z.div_mod_to_equations; lia. }
    replace (b * 2 ^ n * 2) with (b * 2 * 2 ^ n) by ring.
    rewrite <- Z.div_div, <- Em by lia.
    apply Z.div_lt_upper_bound; [lia|].
    destruct (Z.eq_dec m 0) as [->|Hm0]; [lia|].
    pose proof (Zdigits2_bounds m ltac:(lia)) as [_ Hu].
    apply Z.lt_le_trans with (1 := Hu).
    rewrite <- Z.pow_add_r by lia. apply Z.pow_le_mono_r; lia. }
  split; [|lia].
  apply Z.le_trans with (2 := Hlo). apply Z.div_pos; lia.
Qed.

(** ** Division by 1000 *)

Lemma Prim2SF_1000 : Prim2SF 1000 = S754_finite false (Z.to_pos thousand) (-43).
Proof. reflexivity. Qed.

Lemma valid_finite_canonical s m e :
  valid_binary (S754_finite s m e) = true ->
  0 < Zpos m < 2 ^ 53 /\ -1074 <= e <= 971 /\
  Zpos (digits2_pos m) <= 53 /\ (e = -1074 \/ 2 ^ 52 <= Zpos m).
Proof.
  intros V. destruct (valid_finite_bounds s m e V) as [Hm He].
  revert V. unfold SpecFloat.valid_binary, bounded, canonical_mantissa.
  rewrite andb_true_iff, Z.eqb_eq, Z.leb_le, fexp_eq. intros [Hc _].
  assert (Hd : Zpos (digits2_pos m) <= 53) by lia.
  split; [assumption|]. split; [assumption|]. split; [assumption|].
  destruct (Z.eq_dec e (-1074)) as [|Hne]; [left; assumption | right].
  assert (Hd' : Zpos (digits2_pos m) = 53) by lia.
  pose proof (Zdigits2_bounds (Zpos m) ltac:(lia)) as [Hlo _]. cbn [Zdigits2] in Hlo.
  rewrite Hd' in Hlo. exact Hlo.
Qed.

Lemma quotient_exponent_bounds m e :
  Zpos (digits2_pos m) <= 53 -> -1074 <= e ->
  -1074 <= quotient_exponent m e /\ 43 <= e + 43 - quotient_exponent m e.
Proof. unfold quotient_exponent. lia. Qed.

Lemma SFdiv_core_1000 m e :
  Zpos (digits2_pos m) <= 53 -> -1074 <= e ->
  SFdiv_core_binary prec emax (Zpos m) e thousand (-43)
  = (quotient m e, quotient_exponent m e,
     new_location thousand ((Zpos m * 2 ^ (e + 43 - quotient_exponent m e)) mod thousand)).
Proof.
  intros Hd He. unfold SFdiv_core_binary.
  change (Zdigits2 thousand) with 53. cbn [Zdigits2].
  rewrite fexp_eq.
  replace (Z.min (Z.max (Zpos (digits2_pos m) + e - (53 + -43) - 53) (-1074)) (e - -43))
    with (quotient_exponent m e) by (unfold quotient_exponent; lia).
  pose proof (quotient_exponent_bounds m e Hd He) as [_ Hs].
  replace (e - -43 - quotient_exponent m e) with (e + 43 - quotient_exponent m e) by lia.
  destruct (e + 43 - quotient_exponent m e) as [|p|p] eqn:Es; try lia.
  rewrite Z.shiftl_mul_pow2 by lia.
  unfold quotient. rewrite Es. unfold Z.div, Z.modulo.
  destruct (Z.div_eucl (Zpos m * 2 ^ Zpos p) thousand). reflexivity.
Qed.

Lemma new_location_thousand a :
  0 <= a ->
  4 * (a / thousand) + code (new_location thousand (a mod thousand))
  = cell (2 * a) thousand.
Proof.
  intros Ha. unfold new_location. change (Z.even thousand) with true. cbv iota.
  unfold new_location_even, cell.
  pose proof (Z.mod_pos_bound a thousand ltac:(reflexivity)) as Hr.
  pose proof (Z.div_mod a thousand ltac:(discriminate)) as Hdm.
  set (q := a / thousand) in *. set (r := a mod thousand) in *.
  unfold thousand in *.
  destruct (Z.eqb_spec r 0) as [E0|E0].
  - cbn [code]. destruct (Z.eqb_spec ((2 * a) mod 8796093022208000) 0);
      Z.div_mod_to_equations; lia.
  - destruct (Z.compare_spec (2 * r) 8796093022208000) as [E|E|E]; cbn [code];
      destruct (Z.eqb_spec ((2 * a) mod 8796093022208000) 0);
      Z.div_mod_to_equations; lia.
Qed.

Lemma cell_scale a b k : 0 < b -> 0 < k -> cell (a * k) (b * k) = cell a b.
Proof.
  intros Hb Hk. unfold cell.
  rewrite Z.div_mul_cancel_r, Z.mul_mod_distr_r by lia.
  destruct (Z.eqb_spec (a mod b) 0) as [->|Hne]; [reflexivity|].
  destruct (Z.eqb_spec (a mod b * k) 0) as [E|_]; [|reflexivity].
  apply Z.mul_eq_0 in E. lia.
Qed.

(** The quotient of a finite number by 1000. *)
Lemma SFdiv_1000_finite s m e :
  valid_binary (S754_finite s m e) = true ->
  SF64div (S754_finite s m e) (Prim2SF 1000)
  = finish s (rounded m e) (rounding_exponent m e).
Proof.
  intros V. destruct (valid_finite_canonical s m e V) as (Hm & He & Hd & _).
  rewrite Prim2SF_1000. unfold SF64div, SFdiv.
  change (Zpos (Z.to_pos thousand)) with thousand.
  rewrite SFdiv_core_1000 by lia.
  pose proof (quotient_exponent_bounds m e Hd ltac:(lia)) as [He' Hs].
  set (e' := quotient_exponent m e) in *.
  set (a := Zpos m * 2 ^ (e + 43 - e')).
  assert (Ha : 0 <= a) by (apply Z.mul_nonneg_nonneg; [lia | apply Z.pow_nonneg; lia]).
  rewrite xorb_false_r.
  rewrite (binary_round_aux_shape s _ e' _ (2 * a) thousand).
  - unfold rounded, rounding_exponent, quotient. fold e'. fold a.
    set (n := shift_of (a / thousand) e').
    assert (Hn : 0 <= n) by apply shift_of_nonneg.
    assert (Hc : cell (2 * a) (thousand * 2 ^ n)
                 = cell (2 * scaled m e) (unit_at (e' + n))).
    { rewrite <- (cell_scale (2 * a) (thousand * 2 ^ n) (2 ^ (e' + 1074)));
        [| apply Z.mul_pos_pos; [reflexivity | apply Z.pow_pos_nonneg; lia]
         | apply Z.pow_pos_nonneg; lia ].
      f_equal.
      - unfold scaled, a. rewrite <- !Z.mul_assoc, <- Z.pow_add_r by lia.
        do 3 f_equal. lia.
      - unfold unit_at. rewrite <- Z.mul_assoc, <- Z.pow_add_r by lia.
        do 2 f_equal. lia. }
    rewrite Hc. reflexivity.
  - apply Z.div_pos; [assumption | reflexivity].
  - lia.
  - reflexivity.
  - apply new_location_thousand. assumption.
Qed.

Section RoundingExponent.

Variables (m : positive) (e : Z).
Hypothesis Hd : Zpos (digits2_pos m) <= 53.
Hypothesis He : -1074 <= e.

Let e' := quotient_exponent m e.
Let a := Zpos m * 2 ^ (e + 43 - e').
Let n := shift_of (a / thousand) e'.
Let k := 2 ^ (e' + 1074).

Lemma rounding_exponent_eq : rounding_exponent m e = e' + n.
Proof. reflexivity. Qed.

Lemma scaled_eq : scaled m e = a * k.
Proof.
  pose proof (quotient_exponent_bounds m e Hd He) as [H1 H2]. fold e' in H1, H2.
  unfold scaled, a, k. rewrite <- Z.mul_assoc, <- Z.pow_add_r by lia.
  do 2 f_equal. lia.
Qed.

Lemma unit_at_eq : unit_at (rounding_exponent m e) = thousand * 2 ^ n * k.
Proof.
  pose proof (quotient_exponent_bounds m e Hd He) as [H1 H2]. fold e' in H1, H2.
  pose proof (shift_of_nonneg (a / thousand) e') as Hn. fold n in Hn.
  rewrite rounding_exponent_eq. unfold unit_at, k.
  rewrite <- Z.mul_assoc, <- Z.pow_add_r by lia. do 2 f_equal. lia.
Qed.

Lemma a_nonneg : 0 <= a.
Proof.
  pose proof (quotient_exponent_bounds m e Hd He) as [H1 H2]. fold e' in H1, H2.
  apply Z.mul_nonneg_nonneg; [lia | apply Z.pow_nonneg; lia].
Qed.

Lemma k_pos : 0 < k.
Proof.
  pose proof (quotient_exponent_bounds m e Hd He) as [H1 H2]. fold e' in H1, H2.
  apply Z.pow_pos_nonneg; lia.
Qed.

Lemma rounding_exponent_min : -1074 <= rounding_exponent m e.
Proof. rewrite rounding_exponent_eq. apply shift_of_exponent. Qed.

(** The quotient has at most 53 bits at its rounding exponent. *)
Lemma scaled_upper : scaled m e < 2 ^ 53 * unit_at (rounding_exponent m e).
Proof.
  rewrite scaled_eq, unit_at_eq.
  pose proof a_nonneg as Ha. pose proof k_pos as Hk.
  pose proof (shift_of_nonneg (a / thousand) e') as Hn.
  pose proof (shift_of_digits (a / thousand) e') as Hdig. fold n in Hn, Hdig.
  assert (Hq : a / thousand < 2 ^ 53 * 2 ^ n).
  { assert (Hq0 : 0 <= a / thousand) by (apply Z.div_pos; [assumption | reflexivity]).
    assert (Hp : 0 < 2 ^ 53 * 2 ^ n)
      by (apply Z.mul_pos_pos; [reflexivity | apply Z.pow_pos_nonneg; lia]).
    destruct (Z.eq_dec (a / thousand) 0) as [E0|E0]; [lia|].
    pose proof (Zdigits2_bounds (a / thousand) ltac:(lia)) as [_ Hu].
    apply Z.lt_le_trans with (1 := Hu).
    rewrite <- Z.pow_add_r by lia. apply Z.pow_le_mono_r; lia. }
  assert (Ha' : a < thousand * (2 ^ 53 * 2 ^ n)).
  { pose proof (Z.mul_succ_div_gt a thousand ltac:(reflexivity)) as Hs.
    apply Z.lt_le_trans with (1 := Hs). apply Z.mul_le_mono_nonneg_l; [discriminate | lia]. }
  replace (2 ^ 53 * (thousand * 2 ^ n * k)) with (thousand * (2 ^ 53 * 2 ^ n) * k) by ring.
  apply Z.mul_lt_mono_pos_r; assumption.
Qed.

(** Above the least exponent, the quotient has 53 bits at its rounding
    exponent. *)
Lemma scaled_lower :
  -1074 < rounding_exponent m e -> 2 ^ 52 * unit_at (rounding_exponent m e) <= scaled m e.
Proof.
  intros HE. rewrite scaled_eq, unit_at_eq.
  pose proof a_nonneg as Ha. pose proof k_pos as Hk.
  pose proof (quotient_exponent_bounds m e Hd He) as [H1 H2]. fold e' in H1, H2.
  replace (2 ^ 52 * (thousand * 2 ^ n * k)) with (thousand * (2 ^ 52 * 2 ^ n) * k) by ring.
  apply Z.mul_le_mono_nonneg_r; [lia|].
  rewrite rounding_exponent_eq in HE.
  assert (Hq0 : 0 <= a / thousand) by (apply Z.div_pos; [assumption | reflexivity]).
  pose proof (Z.mul_div_le a thousand ltac:(reflexivity)) as Hle.
  unfold n, shift_of in *. rewrite fexp_eq in *.
  set (q := a / thousand) in *.
  destruct (Z.le_gt_cases (Z.max (Zdigits2 q + e' - 53) (-1074) - e') 0) as [Hn|Hn].
  - rewrite Z.max_l in * by lia. rewrite Z.mul_1_r.
    assert (Ee : e' = Zpos (digits2_pos m) + e - 63) by (unfold e', quotient_exponent in *; lia).
    assert (Es : e + 43 - e' = 106 - Zpos (digits2_pos m)) by lia.
    pose proof (Zdigits2_bounds (Zpos m) ltac:(lia)) as [Hlo _]. cbn [Zdigits2] in Hlo.
    assert (H105 : 2 ^ 105 <= a).
    { unfold a. rewrite Es.
      replace 105 with ((Zpos (digits2_pos m) - 1) + (106 - Zpos (digits2_pos m))) by lia.
      rewrite Z.pow_add_r by lia.
      apply Z.mul_le_mono_nonneg_r; [apply Z.pow_nonneg; lia | assumption]. }
    apply Z.le_trans with (2 := H105). apply Z.leb_le. reflexivity.
  - rewrite Z.max_r in * by lia.
    assert (Hdq : Zdigits2 q - 53 = Z.max (Zdigits2 q + e' - 53) (-1074) - e') by lia.
    rewrite <- Hdq in *.
    assert (Hqpos : 0 < q).
    { destruct (Z.eq_dec q 0) as [E0|E0]; [|lia]. rewrite E0 in Hn. cbn in Hn. lia. }
    pose proof (Zdigits2_bounds q Hqpos) as [Hlo _].
    apply Z.le_trans with (2 := Hle). apply Z.mul_le_mono_nonneg_l; [discriminate|].
    rewrite <- Z.pow_add_r by lia.
    replace (52 + (Zdigits2 q - 53)) with (Zdigits2 q - 1) by lia. assumption.
Qed.

End RoundingExponent.

(** ** Division by 1000 is monotone *)

Lemma cell_mono a1 a2 b : 0 < b -> a1 <= a2 -> cell a1 b <= cell a2 b.
Proof.
  intros Hb Ha. unfold cell.
  pose proof (Z.div_le_mono a1 a2 b Hb Ha) as Hq.
  pose proof (Z.div_mod a1 b ltac:(lia)) as E1.
  pose proof (Z.div_mod a2 b ltac:(lia)) as E2.
  pose proof (Z.mod_pos_bound a1 b Hb) as R1.
  pose proof (Z.mod_pos_bound a2 b Hb) as R2.
  destruct (Z.eq_dec (a1 / b) (a2 / b)) as [E|E].
  - rewrite E in *.
    destruct (Z.eqb_spec (a1 mod b) 0), (Z.eqb_spec (a2 mod b) 0); lia.
  - destruct (Z.eqb_spec (a1 mod b) 0), (Z.eqb_spec (a2 mod b) 0); lia.
Qed.

Lemma rne_mono N1 N2 : N1 <= N2 -> rne N1 <= rne N2.
Proof.
  intros H. unfold rne.
  destruct (Z.eq_dec (N1 / 4) (N2 / 4)) as [E|E].
  - rewrite E.
    destruct (Z.eqb_spec (N1 mod 4) 3), (Z.eqb_spec (N1 mod 4) 2),
      (Z.eqb_spec (N2 mod 4) 3), (Z.eqb_spec (N2 mod 4) 2), (Z.odd (N2 / 4));
      cbn [orb andb]; Z.div_mod_to_equations; lia.
  - destruct ((N1 mod 4 =? 3) || (N1 mod 4 =? 2) && Z.odd (N1 / 4))%bool,
      ((N2 mod 4 =? 3) || (N2 mod 4 =? 2) && Z.odd (N2 / 4))%bool;
      Z.div_mod_to_equations; lia.
Qed.

Lemma SFrank_finish_opp M E :
  SFrank (finish true M E) = - SFrank (finish false M E).
Proof.
  unfold finish.
  destruct (M =? 0), (M <? 2 ^ 53), (E <=? 971), (E + 1 <=? 971); reflexivity.
Qed.

Lemma finish_not_nan s M E : finish s M E <> S754_nan.
Proof.
  unfold finish.
  destruct (M =? 0), (M <? 2 ^ 53), (E <=? 971), (E + 1 <=? 971); discriminate.
Qed.

Lemma SFrank_finish_nonneg M E :
  0 <= M -> -1074 <= E -> 0 <= SFrank (finish false M E).
Proof.
  intros HM HE. unfold finish.
  destruct (Z.eqb_spec M 0), (Z.ltb_spec M (2 ^ 53)), (Z.leb_spec E 971),
    (Z.leb_spec (E + 1) 971); cbn [SFrank]; rewrite ?Z2Pos.id by lia;
    change (2 ^ 53) with 9007199254740992 in *;
    change (2 ^ 52) with 4503599627370496 in *;
    change (2 ^ 65) with 36893488147419103232 in *; lia.
Qed.

Lemma SFrank_finish_le M E :
  0 <= M <= 2 ^ 53 -> SFrank (finish false M E) <= 2 ^ 65.
Proof.
  intros HM. unfold finish.
  destruct (Z.eqb_spec M 0), (Z.ltb_spec M (2 ^ 53)), (Z.leb_spec E 971),
    (Z.leb_spec (E + 1) 971); cbn [SFrank]; rewrite ?Z2Pos.id by lia;
    change (2 ^ 53) with 9007199254740992 in *;
    change (2 ^ 52) with 4503599627370496 in *;
    change (2 ^ 65) with 36893488147419103232 in *; lia.
Qed.

Lemma finish_rank_mono M1 E1 M2 E2 :
  -1074 <= E1 -> 0 <= M1 <= 2 ^ 53 -> 0 <= M2 <= 2 ^ 53 ->
  (E1 = E2 /\ M1 <= M2) \/ (E1 < E2 /\ 2 ^ 52 <= M2) ->
  SFrank (finish false M1 E1) <= SFrank (finish false M2 E2).
Proof.
  intros HE H1 H2 H. unfold finish.
  destruct (Z.eqb_spec M1 0), (Z.ltb_spec M1 (2 ^ 53)), (Z.leb_spec E1 971),
    (Z.leb_spec (E1 + 1) 971), (Z.eqb_spec M2 0), (Z.ltb_spec M2 (2 ^ 53)),
    (Z.leb_spec E2 971), (Z.leb_spec (E2 + 1) 971);
    cbn [SFrank]; rewrite ?Z2Pos.id by lia;
    change (2 ^ 53) with 9007199254740992 in *;
    change (2 ^ 52) with 4503599627370496 in *;
    change (2 ^ 65) with 36893488147419103232 in *; lia.
Qed.

Lemma rounded_bounds m e :
  Zpos (digits2_pos m) <= 53 -> -1074 <= e ->
  0 <= rounded m e <= 2 ^ 53 /\
  (-1074 < rounding_exponent m e -> 2 ^ 52 <= rounded m e).
Proof.
  intros Hd He. unfold rounded.
  pose proof (scaled_upper m e Hd He) as Hu.
  pose proof (scaled_lower m e Hd He) as Hl.
  pose proof (rounding_exponent_min m e) as HE.
  set (E := rounding_exponent m e) in *.
  assert (HT : 0 < unit_at E).
  { unfold unit_at. apply Z.mul_pos_pos; [reflexivity | apply Z.pow_pos_nonneg; lia]. }
  assert (HW : 0 <= scaled m e).
  { unfold scaled. apply Z.mul_nonneg_nonneg; [lia | apply Z.pow_nonneg; lia]. }
  pose proof (rne_bounds (cell (2 * scaled m e) (unit_at E))) as [Hlo Hhi].
  rewrite cell_quarter in Hlo, Hhi by lia.
  replace (unit_at E * 2) with (2 * unit_at E) in Hlo, Hhi by ring.
  rewrite Z.div_mul_cancel_l in Hlo, Hhi by lia.
  assert (Hq : scaled m e / unit_at E < 2 ^ 53).
  { apply Z.div_lt_upper_bound; [assumption|]. rewrite Z.mul_comm. assumption. }
  assert (Hq0 : 0 <= scaled m e / unit_at E) by (apply Z.div_pos; assumption).
  split; [lia|].
  intros HE1. specialize (Hl HE1).
  apply Z.le_trans with (2 := Hlo).
  apply Z.div_le_lower_bound; [assumption|]. rewrite Z.mul_comm. assumption.
Qed.

Lemma scaled_mono m1 e1 m2 e2 :
  valid_binary (S754_finite false m1 e1) = true ->
  valid_binary (S754_finite false m2 e2) = true ->
  SFrank (S754_finite false m1 e1) <= SFrank (S754_finite false m2 e2) ->
  scaled m1 e1 <= scaled m2 e2.
Proof.
  intros V1 V2. cbn [SFrank].
  destruct (valid_finite_canonical _ _ _ V1) as (Hm1 & He1 & _ & _).
  destruct (valid_finite_canonical _ _ _ V2) as (Hm2 & He2 & _ & Hc2).
  change (2 ^ 53) with 9007199254740992 in *.
  intros H. unfold scaled.
  destruct (Z.eq_dec e1 e2) as [->|Hne].
  - apply Z.mul_le_mono_nonneg_r; [apply Z.pow_nonneg; lia | lia].
  - assert (Hlt : e1 < e2) by lia.
    destruct Hc2 as [Hc2|Hc2]; [lia|].
    apply Z.le_trans with (2 ^ 52 * 2 ^ (e2 + 1117)).
    + apply Z.le_trans with (2 ^ 53 * 2 ^ (e1 + 1117)).
      * apply Z.mul_le_mono_nonneg_r; [apply Z.pow_nonneg; lia|].
        change (2 ^ 53) with 9007199254740992. lia.
      * change (2 ^ 53) with (2 ^ 52 * 2 ^ 1).
        rewrite <- Z.mul_assoc, <- Z.pow_add_r by lia.
        apply Z.mul_le_mono_nonneg_l; [discriminate|].
        apply Z.pow_le_mono_r; lia.
    + apply Z.mul_le_mono_nonneg_r; [apply Z.pow_nonneg; lia | assumption].
Qed.

(** The rounding exponent grows with the number. *)
Lemma rounding_exponent_mono m1 e1 m2 e2 :
  Zpos (digits2_pos m1) <= 53 -> -1074 <= e1 ->
  Zpos (digits2_pos m2) <= 53 -> -1074 <= e2 ->
  scaled m1 e1 <= scaled m2 e2 ->
  rounding_exponent m1 e1 <= rounding_exponent m2 e2.
Proof.
  intros Hd1 He1 Hd2 He2 HW.
  pose proof (scaled_lower m1 e1 Hd1 He1) as Hl.
  pose proof (scaled_upper m2 e2 Hd2 He2) as Hu.
  pose proof (rounding_exponent_min m1 e1) as Hmin1.
  pose proof (rounding_exponent_min m2 e2) as Hmin2.
  set (E1 := rounding_exponent m1 e1) in *. set (E2 := rounding_exponent m2 e2) in *.
  destruct (Z.le_gt_cases E1 E2) as [|Hgt]; [assumption|exfalso].
  specialize (Hl ltac:(lia)).
  assert (Hpow : 2 ^ 53 * unit_at E2 <= 2 ^ 52 * unit_at E1).
  { unfold unit_at.
    replace (2 ^ 53 * (thousand * 2 ^ (E2 + 1074)))
      with (2 ^ 52 * (thousand * 2 ^ (E2 + 1074 + 1))).
    - apply Z.mul_le_mono_nonneg_l; [discriminate|].
      apply Z.mul_le_mono_nonneg_l; [discriminate|].
      apply Z.pow_le_mono_r; lia.
    - rewrite (Z.pow_add_r 2 (E2 + 1074) 1) by lia.
      change (2 ^ 53) with (2 ^ 52 * 2 ^ 1). ring. }
  lia.
Qed.

(** Dividing a positive number by 1000 is monotone. *)
Lemma SFdiv_1000_mono_pos m1 e1 m2 e2 :
  valid_binary (S754_finite false m1 e1) = true ->
  valid_binary (S754_finite false m2 e2) = true ->
  SFrank (S754_finite false m1 e1) <= SFrank (S754_finite false m2 e2) ->
  SFrank (finish false (rounded m1 e1) (rounding_exponent m1 e1))
  <= SFrank (finish false (rounded m2 e2) (rounding_exponent m2 e2)).
Proof.
  intros V1 V2 H.
  pose proof (scaled_mono _ _ _ _ V1 V2 H) as HW.
  destruct (valid_finite_canonical _ _ _ V1) as (_ & He1 & Hd1 & _).
  destruct (valid_finite_canonical _ _ _ V2) as (_ & He2 & Hd2 & _).
  pose proof (rounding_exponent_mono m1 e1 m2 e2 Hd1 ltac:(lia) Hd2 ltac:(lia) HW) as HE.
  destruct (rounded_bounds m1 e1 Hd1 ltac:(lia)) as [HM1 _].
  destruct (rounded_bounds m2 e2 Hd2 ltac:(lia)) as [HM2 HL2].
  pose proof (rounding_exponent_min m1 e1) as Hmin1.
  apply finish_rank_mono; try assumption.
  destruct (Z.eq_dec (rounding_exponent m1 e1) (rounding_exponent m2 e2)) as [E|E].
  - left. split; [assumption|]. unfold rounded. rewrite E.
    apply rne_mono, cell_mono; [|lia].
    unfold unit_at. apply Z.mul_pos_pos; [reflexivity|].
    apply Z.pow_pos_nonneg; [lia|]. pose proof (rounding_exponent_min m2 e2). lia.
  - right. split; [lia|]. apply HL2. lia.
Qed.

Lemma SFdiv_1000_rank a :
  valid_binary a = true ->
  SFrank (SF64div a (Prim2SF 1000))
  = match a with
    | S754_zero _ | S754_nan => 0
    | S754_infinity s => if s then - 2 ^ 65 else 2 ^ 65
    | S754_finite s m e => if s then - quotient_rank m e else quotient_rank m e
    end.
Proof.
  intros V. destruct a as [s|s| |s m e].
  - destruct s; reflexivity.
  - destruct s; reflexivity.
  - reflexivity.
  - rewrite SFdiv_1000_finite by assumption. unfold quotient_rank.
    destruct s; [apply SFrank_finish_opp | reflexivity].
Qed.

Lemma SFdiv_1000_not_nan a :
  valid_binary a = true -> a <> S754_nan -> SF64div a (Prim2SF 1000) <> S754_nan.
Proof.
  intros V N. destruct a as [s|s| |s m e]; try congruence.
  - destruct s; discriminate.
  - destruct s; discriminate.
  - rewrite SFdiv_1000_finite by assumption. apply finish_not_nan.
Qed.

Lemma quotient_rank_bounds m e :
  valid_binary (S754_finite false m e) = true ->
  0 <= quotient_rank m e <= 2 ^ 65.
Proof.
  intros V. destruct (valid_finite_canonical _ _ _ V) as (_ & He & Hd & _).
  destruct (rounded_bounds m e Hd ltac:(lia)) as [HM _].
  pose proof (rounding_exponent_min m e).
  unfold quotient_rank. split.
  - apply SFrank_finish_nonneg; lia.
  - apply SFrank_finish_le; assumption.
Qed.

Lemma SFdiv_1000_mono a b :
  valid_binary a = true -> valid_binary b = true ->
  a <> S754_nan -> b <> S754_nan ->
  SFrank a <= SFrank b ->
  SFrank (SF64div a (Prim2SF 1000)) <= SFrank (SF64div b (Prim2SF 1000)).
Proof.
  intros Va Vb Na Nb H.
  rewrite !SFdiv_1000_rank by assumption.
  destruct a as [sa|sa| |sa ma ea], b as [sb|sb| |sb mb eb]; try congruence.
  all: try (pose proof (valid_finite_bounds _ _ _ Va) as [Ba Ba']).
  all: try (pose proof (valid_finite_bounds _ _ _ Vb) as [Bb Bb']).
  all: try (pose proof (quotient_rank_bounds ma ea Va) as Qa).
  all: try (pose proof (quotient_rank_bounds mb eb Vb) as Qb).
  all: cbn [SFrank] in H.
  all: change (2 ^ 53) with 9007199254740992 in *;
       change (2 ^ 65) with 36893488147419103232 in *.
  all: try (destruct sa); try (destruct sb); try lia.
  - (* both negative *)
    assert (Hm : SFrank (S754_finite false mb eb) <= SFrank (S754_finite false ma ea))
      by (cbn [SFrank]; lia).
    pose proof (SFdiv_1000_mono_pos mb eb ma ea Vb Va Hm) as Hq.
    fold (quotient_rank mb eb) in Hq. fold (quotient_rank ma ea) in Hq. lia.
  - (* both positive *)
    pose proof (SFdiv_1000_mono_pos ma ea mb eb Va Vb H) as Hq.
    fold (quotient_rank mb eb) in Hq. fold (quotient_rank ma ea) in Hq. lia.
Qed.

(** Division by 1000 keeps numbers numbers, and their order. *)
Lemma div_1000_number x : is_nan x = false -> is_nan (x / 1000) = false.
Proof.
  intros N. apply is_nan_false in N. apply is_nan_false. rewrite div_spec.
  apply SFdiv_1000_not_nan; [apply Prim2SF_valid | assumption].
Qed.

Lemma div_1000_rank_mono x y :
  is_nan x = false -> is_nan y = false ->
  rank x <= rank y -> rank (x / 1000) <= rank (y / 1000).
Proof.
  intros Nx Ny H. apply is_nan_false in Nx, Ny. unfold rank. rewrite !div_spec.
  apply SFdiv_1000_mono; auto using Prim2SF_valid.
Qed.

Lemma binary_round_aux_exact_not_nan s m e :
  0 <= m -> binary_round_aux prec emax s m e loc_Exact <> S754_nan.
Proof.
  intros Hm.
  rewrite (binary_round_aux_shape s m e loc_Exact (2 * m) 1); try lia.
  - apply finish_not_nan.
  - unfold cell. rewrite Z.div_1_r, Z.mod_1_r. cbn [code Z.eqb]. lia.
Qed.

Lemma binary_normalize_not_nan m e sz : binary_normalize prec emax m e sz <> S754_nan.
Proof.
  unfold binary_normalize, binary_round.
  destruct m as [|p|p]; [discriminate| |];
    destruct (shl_align _ _ _) as [mz ez]; apply binary_round_aux_exact_not_nan; lia.
Qed.

Lemma is_finite_spec x :
  is_finite x = true ->
  (exists s, Prim2SF x = S754_zero s) \/ (exists s m e, Prim2SF x = S754_finite s m e).
Proof.
  unfold is_finite, is_infinity. rewrite negb_true_iff, orb_false_iff.
  intros [N I]. apply is_nan_false in N.
  rewrite FloatAxioms.eqb_spec, abs_spec in I.
  destruct (Prim2SF x) as [s|s| |s m e]; [left; eauto | | congruence | right; eauto].
  discriminate I.
Qed.

Lemma is_finite_number x : is_finite x = true -> is_nan x = false.
Proof.
  unfold is_finite. rewrite negb_true_iff, orb_false_iff. intros [N _]. exact N.
Qed.

Lemma sub_finite_number x y :
  is_finite x = true -> is_finite y = true -> is_nan (x - y) = false.
Proof.
  intros Fx Fy. apply is_nan_false. rewrite sub_spec. unfold SF64sub, SFsub.
  destruct (is_finite_spec x Fx) as [[sx ->]|(sx & mx & ex & ->)],
    (is_finite_spec y Fy) as [[sy ->]|(sy & my & ey & ->)].
  - destruct sx, sy; discriminate.
  - discriminate.
  - discriminate.
  - apply binary_normalize_not_nan.
Qed.

(** ** [Math.round] returns integral numbers *)

Lemma iter_xO_spec k p : Zpos (Pos.iter xO p k) = Zpos p * 2 ^ Zpos k.
Proof.
  pose proof (Zpower.shift_pos_correct k p) as H. unfold Zpower.shift_pos in H.
  rewrite H, Zpower.Zpower_pos_nat, Zpower.Zpower_nat_Z, positive_nat_Z. ring.
Qed.

Lemma Zdigits2_unique q d :
  0 < q -> 2 ^ (d - 1) <= q < 2 ^ d -> Zdigits2 q = d.
Proof.
  intros Hq [Hlo Hhi]. pose proof (Zdigits2_bounds q Hq) as [Hlo' Hhi'].
  pose proof (Zdigits2_nonneg q ltac:(lia)) as Hn.
  assert (Hd : 0 < d).
  { destruct (Z.lt_ge_cases 0 d) as [|Hle]; [assumption|exfalso].
    destruct (Z.eq_dec d 0) as [->|Hne]; [cbn in Hhi; lia|].
    rewrite Z.pow_neg_r in Hhi by lia. lia. }
  destruct (Z.lt_trichotomy (Zdigits2 q) d) as [Hlt|[E|Hgt]]; [|assumption|].
  - assert (2 ^ Zdigits2 q <= 2 ^ (d - 1)) by (apply Z.pow_le_mono_r; lia). lia.
  - assert (2 ^ d <= 2 ^ (Zdigits2 q - 1)) by (apply Z.pow_le_mono_r; lia). lia.
Qed.

Lemma binary_normalize_integral p :
  Zpos (digits2_pos p) <= 53 ->
  SFintegral (binary_normalize prec emax (Zpos p) 0 false).
Proof.
  intros Hd. unfold binary_normalize, binary_round. rewrite fexp_eq.
  pose proof (Zdigits2_bounds (Zpos p) ltac:(lia)) as [Hlo Hhi]. cbn [Zdigits2] in Hlo, Hhi.
  set (d := Zpos (digits2_pos p)) in *.
  assert (Hd0 : 0 < d) by (unfold d; lia).
  rewrite Z.max_l by lia. unfold shl_align.
  replace (d + 0 - 53 - 0) with (d - 53) by lia.
  destruct (d - 53) as [|k|k] eqn:Ek; try lia.
  - (* 53 bits already *)
    rewrite (binary_round_aux_shape false (Zpos p) 0 loc_Exact (2 * Zpos p) 1); try lia.
    + assert (Es : shift_of (Zpos p) 0 = 0).
      { unfold shift_of. rewrite fexp_eq. cbn [Zdigits2]. fold d. lia. }
      rewrite Es. cbn [Z.pow]. rewrite Z.mul_1_r, Z.add_0_r.
      assert (Er : rne (cell (2 * Zpos p) 1) = Zpos p).
      { unfold cell, rne. rewrite Z.div_1_r, Z.mod_1_r. cbn [Z.eqb].
        replace (2 * (2 * Zpos p) + 0) with (Zpos p * 4) by lia.
        rewrite Z.div_mul, Z.mod_mul by lia. cbn. lia. }
      rewrite Er. unfold finish.
      assert (Hp53 : Zpos p < 2 ^ 53) by (replace d with 53 in Hhi by lia; assumption).
      destruct (Z.eqb_spec (Zpos p) 0); [lia|].
      destruct (Z.ltb_spec (Zpos p) (2 ^ 53)); [|lia].
      cbn. left. lia.
    + unfold cell. rewrite Z.div_1_r, Z.mod_1_r. cbn [code Z.eqb]. lia.
  - (* shifted left to 53 bits *)
    set (mz := Pos.iter xO p k).
    assert (Emz : Zpos mz = Zpos p * 2 ^ Zpos k) by apply iter_xO_spec.
    assert (Hpk : 0 < 2 ^ Zpos k) by (apply Z.pow_pos_nonneg; lia).
    assert (Hdz : Zdigits2 (Zpos mz) = 53).
    { apply Zdigits2_unique; [lia|]. rewrite Emz. split.
      - replace (53 - 1) with ((d - 1) + Zpos k) by lia.
        rewrite Z.pow_add_r by lia. apply Z.mul_le_mono_nonneg_r; lia.
      - replace 53 with (d + Zpos k) by lia.
        rewrite Z.pow_add_r by lia. apply Z.mul_lt_mono_pos_r; lia. }
    rewrite (binary_round_aux_shape false (Zpos mz) _ loc_Exact (2 * Zpos mz) 1); try lia.
    + assert (Es : shift_of (Zpos mz) (d + 0 - 53) = 0).
      { unfold shift_of. rewrite fexp_eq, Hdz. lia. }
      rewrite Es. cbn [Z.pow]. rewrite Z.mul_1_r, Z.add_0_r.
      assert (Er : rne (cell (2 * Zpos mz) 1) = Zpos mz).
      { unfold cell, rne. rewrite Z.div_1_r, Z.mod_1_r. cbn [Z.eqb].
        replace (2 * (2 * Zpos mz) + 0) with (Zpos mz * 4) by lia.
        rewrite Z.div_mul, Z.mod_mul by lia. cbn. lia. }
      rewrite Er. unfold finish.
      pose proof (Zdigits2_bounds (Zpos mz) ltac:(lia)) as [_ Hz]. rewrite Hdz in Hz.
      destruct (Z.eqb_spec (Zpos mz) 0); [lia|].
      destruct (Z.ltb_spec (Zpos mz) (2 ^ 53)); [|lia].
      destruct (Z.leb_spec (d + 0 - 53) 971); [|lia].
      cbn [SFintegral]. right. rewrite Pos2Z.id, Emz.
      replace (- (d + 0 - 53)) with (Zpos k) by lia. apply Z.mod_mul. lia.
    + unfold cell. rewrite Z.div_1_r, Z.mod_1_r. cbn [code Z.eqb]. lia.
Qed.

Lemma float_of_Z_integral n :
  0 < Z.abs n <= 2 ^ 52 -> integral (Js.float_of_Z n).
Proof.
  intros Hn. unfold integral, Js.float_of_Z.
  assert (H63 : forall p, Zpos p <= 2 ^ 52 ->
                Prim2SF (of_uint63 (Uint63.of_Z (Zpos p)))
                = binary_normalize prec emax (Zpos p) 0 false).
  { intros p Hp. rewrite of_uint63_spec, Uint63.of_Z_spec, Z.mod_small; [reflexivity|].
    split; [lia|]. apply Z.le_lt_trans with (1 := Hp). reflexivity. }
  assert (Hdig : forall p, Zpos p <= 2 ^ 52 -> Zpos (digits2_pos p) <= 53).
  { intros p Hp. pose proof (Zdigits2_bounds (Zpos p) ltac:(lia)) as [Hlo _].
    cbn [Zdigits2] in Hlo.
    destruct (Z.le_gt_cases (Zpos (digits2_pos p)) 53) as [|Hgt]; [assumption|].
    assert (2 ^ 53 <= 2 ^ (Zpos (digits2_pos p) - 1)) by (apply Z.pow_le_mono_r; lia).
    change (2 ^ 53) with 9007199254740992 in *. change (2 ^ 52) with 4503599627370496 in *.
    lia. }
  destruct n as [|p|p]; cbn [Z.abs] in Hn; [lia| |].
  - rewrite H63 by lia. apply binary_normalize_integral, Hdig. lia.
  - rewrite opp_spec, H63 by lia.
    pose proof (binary_normalize_integral p (Hdig p ltac:(lia))) as H.
    destruct (binary_normalize prec emax (Zpos p) 0 false); exact H.
Qed.

Lemma round_finite_bounds s m e :
  Zpos m < 2 ^ 53 -> e < 0 -> Z.abs (Js.round_finite s m e) <= 2 ^ 52.
Proof.
  intros Hm He. unfold Js.round_finite.
  destruct (Z.leb_spec 0 e); [lia|].
  rewrite Z.shiftr_div_pow2, Z.shiftl_mul_pow2, Z.mul_1_l by lia.
  set (k := - e) in *. assert (Hk : 1 <= k) by (unfold k; lia).
  replace (k + 1) with (1 + k) by lia.
  assert (E2 : 2 ^ (1 + k) = 2 * 2 ^ k) by (rewrite Z.pow_add_r by lia; reflexivity).
  assert (Hp : 2 <= 2 ^ k).
  { change 2 with (2 ^ 1) at 1. apply Z.pow_le_mono_r; lia. }
  rewrite E2.
  set (v := if s then Z.neg m else Zpos m).
  assert (Hv : - 2 ^ 53 < v < 2 ^ 53) by (unfold v; destruct s; lia).
  change (2 ^ 53) with 9007199254740992 in *. change (2 ^ 52) with 4503599627370496 in *.
  assert (Hup : (2 * v + 2 ^ k) / (2 * 2 ^ k) <= 4503599627370496).
  { apply Z.lt_succ_r, Z.div_lt_upper_bound; nia. }
  assert (Hlo : - 4503599627370496 <= (2 * v + 2 ^ k) / (2 * 2 ^ k)).
  { apply Z.div_le_lower_bound; nia. }
  lia.
Qed.

(** [Math.round] never returns a number with a fractional part: the case
    that [Number_toString] does not print faithfully is not reached. *)
Lemma Math_round_integral x : integral (Js.Math_round x).
Proof.
  unfold Js.Math_round.
  destruct (Prim2SF x) as [s|s| |s m e] eqn:E; unfold integral; rewrite ?E; try exact I.
  destruct (Z.leb_spec 0 e) as [He|He].
  - unfold integral. rewrite E. left. assumption.
  - pose proof (Prim2SF_valid x) as V. rewrite E in V.
    destruct (valid_finite_bounds _ _ _ V) as [Hm _].
    pose proof (round_finite_bounds s m e ltac:(lia) He) as Hn.
    destruct (Z.eqb_spec (Js.round_finite s m e) 0) as [E0|E0].
    + destruct s; exact I.
    + apply float_of_Z_integral. lia.
Qed.

Local Close Scope Z_scope.

(** ** The loop, variable by variable *)

(** One step of the loop: either the result is successful or it is not. *)
Ltac loop_step r :=
  rewrite filter_cons; unfold loop_body, successful;
  repeat match goal with
         | |- context [track ?a ?b ?c] => destruct (track a b c)
         end;
  destruct (String.eqb (status r) "success");
  [ rewrite decide_True by reflexivity | rewrite decide_False by discriminate ].

Lemma loop_succ rs : forall v,
  v_succ (fold_left loop_body rs v)
  = v_succ v + length (filter (fun r => successful r = true) rs).
Proof.
  induction rs as [|r rs IH]; intros v; cbn [fold_left].
  - rewrite filter_nil. cbn. lia.
  - rewrite IH. loop_step r; cbn; lia.
Qed.

Lemma loop_fail rs : forall v,
  v_fail (fold_left loop_body rs v)
  = v_fail v + length (filter (fun r => successful r = false) rs).
Proof.
  induction rs as [|r rs IH]; intros v; cbn [fold_left].
  - rewrite filter_nil. cbn. lia.
  - rewrite IH. unfold loop_body, successful. rewrite filter_cons.
    repeat match goal with
           | |- context [track ?a ?b ?c] => destruct (track a b c)
           end.
    destruct (String.eqb (status r) "success").
    + rewrite decide_False by discriminate. cbn. lia.
    + rewrite decide_True by reflexivity. cbn. lia.
Qed.

Lemma loop_create rs : forall v,
  (v_minCreate (fold_left loop_body rs v), v_maxCreate (fold_left loop_body rs v))
  = track_all (creates rs) (v_minCreate v, v_maxCreate v).
Proof.
  induction rs as [|r rs IH]; intros v; cbn [fold_left creates map track_all].
  - reflexivity.
  - rewrite IH. unfold track_all, creates. f_equal.
    unfold loop_body. cbn [fst snd].
    destruct (track (time_create r) _ _) as [lo hi].
    destruct (String.eqb (status r) "success"); [destruct (track _ _ _)|]; reflexivity.
Qed.

Lemma loop_valid rs : forall v,
  (v_minValid (fold_left loop_body rs v), v_maxValid (fold_left loop_body rs v))
  = track_all (valids rs) (v_minValid v, v_maxValid v).
Proof.
  induction rs as [|r rs IH]; intros v; cbn [fold_left].
  - reflexivity.
  - rewrite IH. unfold valids. rewrite filter_cons. unfold loop_body, successful.
    destruct (track (time_create r) _ _) as [lo hi].
    destruct (String.eqb (status r) "success").
    + rewrite decide_True by reflexivity. cbn [map track_all fold_left fst snd].
      destruct (track (time_valid r) _ _); reflexivity.
    + rewrite decide_False by discriminate. reflexivity.
Qed.

Lemma loop_delay rs : forall v,
  v_delay (fold_left loop_body rs v) = sum_delay (latencies rs) (v_delay v).
Proof.
  induction rs as [|r rs IH]; intros v; cbn [fold_left].
  - reflexivity.
  - rewrite IH. unfold latencies. loop_step r; reflexivity.
Qed.

Lemma loop_minDelay rs : forall v,
  v_minDelay (fold_left loop_body rs v) = min_delay (latencies rs) (v_minDelay v).
Proof.
  induction rs as [|r rs IH]; intros v; cbn [fold_left].
  - reflexivity.
  - rewrite IH. unfold latencies. loop_step r; reflexivity.
Qed.

Lemma loop_maxDelay rs : forall v,
  v_maxDelay (fold_left loop_body rs v) = max_delay (latencies rs) (v_maxDelay v).
Proof.
  induction rs as [|r rs IH]; intros v; cbn [fold_left].
  - reflexivity.
  - rewrite IH. unfold latencies. loop_step r; reflexivity.
Qed.

Lemma loop_throughput rs : forall v,
  v_throughput (fold_left loop_body rs v) = count_slots (slots rs) (v_throughput v).
Proof.
  induction rs as [|r rs IH]; intros v; cbn [fold_left].
  - reflexivity.
  - rewrite IH. unfold slots. loop_step r; reflexivity.
Qed.

(** ** Running minima and maxima *)

Lemma same_number_rank x y :
  is_nan x = false -> is_nan y = false -> rank x = rank y -> same_number x y = true.
Proof.
  intros Hx Hy E. unfold same_number. rewrite eqb_rank by assumption.
  rewrite E, Z.eqb_refl. reflexivity.
Qed.

Lemma same_number_nan x y :
  is_nan x = true -> is_nan y = true -> same_number x y = true.
Proof.
  intros Hx Hy. unfold same_number. rewrite Hx, Hy. apply orb_true_r.
Qed.

Lemma numbers_app xs ys : numbers (xs ++ ys) = numbers xs ++ numbers ys.
Proof. apply omap_app. Qed.

Lemma tracked_step pre x lo hi :
  tracked pre (lo, hi) ->
  (forall y, x = NNumber y -> is_nan y = false) ->
  tracked (pre ++ [x]) (track x lo hi).
Proof.
  intros T Hx. unfold track, tracked in *. rewrite numbers_app.
  destruct lo as [|a], hi as [|b]; try contradiction; cbn [is_undefined].
  - rewrite T. destruct x as [|y]; cbn.
    + reflexivity.
    + specialize (Hx y eq_refl).
      split; [assumption|]. split; [assumption|].
      split; [apply list_elem_of_singleton; reflexivity|].
      split; [apply list_elem_of_singleton; reflexivity|].
      intros z ->%list_elem_of_singleton. lia.
  - destruct T as (Ha & Hb & Ia & Ib & Hall).
    destruct x as [|y]; cbn [numbers omap number_of].
    + unfold js_lt, js_gt. cbn [ToNumber].
      rewrite ltb_nan_l, ltb_nan_r by reflexivity.
      rewrite app_nil_r. auto.
    + specialize (Hx y eq_refl).
      unfold js_lt, js_gt. cbn [ToNumber].
      rewrite !ltb_rank by assumption.
      pose proof (Hall a Ia). pose proof (Hall b Ib).
      destruct (Z.ltb_spec (rank y) (rank a)), (Z.ltb_spec (rank b) (rank y));
        (split; [assumption|]); (split; [assumption|]);
        (split; [first [ apply elem_of_app; right; apply list_elem_of_singleton; reflexivity
                       | apply elem_of_app; left; assumption ]|]);
        (split; [first [ apply elem_of_app; right; apply list_elem_of_singleton; reflexivity
                       | apply elem_of_app; left; assumption ]|]);
        intros z [Hz| ->%list_elem_of_singleton]%elem_of_app;
        try (specialize (Hall z Hz)); lia.
Qed.

Lemma no_NaN_app xs ys : no_NaN (xs ++ ys) <-> no_NaN xs /\ no_NaN ys.
Proof. unfold no_NaN. rewrite numbers_app. apply Forall_app. Qed.

Lemma no_NaN_cons x xs :
  no_NaN (x :: xs) <-> (forall y, x = NNumber y -> is_nan y = false) /\ no_NaN xs.
Proof.
  unfold no_NaN. destruct x as [|y]; cbn.
  - split; [intros H; split; [discriminate | assumption] | intros [_ H]; assumption].
  - rewrite Forall_cons. split; intros [H1 H2]; split; try assumption.
    + intros z [= <-]. assumption.
    + apply H1. reflexivity.
Qed.

Lemma track_all_tracked xs : forall pre p,
  tracked pre p -> no_NaN xs -> tracked (pre ++ xs) (track_all xs p).
Proof.
  induction xs as [|x xs IH]; intros pre p T N; cbn [track_all fold_left].
  - rewrite app_nil_r. assumption.
  - apply no_NaN_cons in N as [Nx N].
    replace (pre ++ x :: xs) with ((pre ++ [x]) ++ xs) by (rewrite <- app_assoc; reflexivity).
    apply IH; [|assumption].
    destruct p as [lo hi]. apply tracked_step; assumption.
Qed.

Lemma track_all_spec xs :
  no_NaN xs -> tracked xs (track_all xs (NUndefined, NUndefined)).
Proof.
  intros N. apply (track_all_tracked xs [] (NUndefined, NUndefined)); [reflexivity | assumption].
Qed.

(** Two trackings of the same numbers, in any order, agree as numbers. *)
Lemma tracked_Permutation xs ys p q :
  numbers xs ≡ₚ numbers ys -> tracked xs p -> tracked ys q ->
  same_number (ToNumber (fst p)) (ToNumber (fst q)) = true /\
  same_number (ToNumber (snd p)) (ToNumber (snd q)) = true.
Proof.
  intros P Tp Tq. destruct p as [[|a] [|b]], q as [[|c] [|d]]; cbn in Tp, Tq; try contradiction;
    cbn [fst snd ToNumber].
  - split; reflexivity.
  - rewrite Tp in P. destruct Tq as (_ & _ & I & _).
    apply Permutation_nil in P. rewrite P in I. inversion I.
  - rewrite Tq in P. destruct Tp as (_ & _ & I & _).
    symmetry in P. apply Permutation_nil in P. rewrite P in I. inversion I.
  - destruct Tp as (Na & Nb & Ia & Ib & Hp), Tq as (Nc & Nd & Ic & Id & Hq).
    assert (Ia' : a ∈ numbers ys) by (rewrite <- P; assumption).
    assert (Ib' : b ∈ numbers ys) by (rewrite <- P; assumption).
    assert (Ic' : c ∈ numbers xs) by (rewrite P; assumption).
    assert (Id' : d ∈ numbers xs) by (rewrite P; assumption).
    pose proof (Hp c Ic'). pose proof (Hp d Id'). pose proof (Hq a Ia'). pose proof (Hq b Ib').
    split; apply same_number_rank; try assumption; lia.
Qed.

Lemma min_delay_spec ds : forall m0,
  is_nan m0 = false ->
  let m := min_delay ds m0 in
  is_nan m = false /\ (m = m0 \/ m ∈ ds) /\ (rank m <= rank m0)%Z /\
  forall d, d ∈ ds -> is_nan d = false -> (rank m <= rank d)%Z.
Proof.
  induction ds as [|d ds IH]; intros m0 N0; cbn [min_delay fold_left].
  - repeat split; auto; try lia. intros d H. inversion H.
  - fold (min_delay ds (if (d <? m0)%float then d else m0)).
    destruct (d <? m0)%float eqn:E.
    + destruct (ltb_true_number _ _ E) as [Nd _].
      rewrite ltb_rank in E by assumption. apply Z.ltb_lt in E.
      destruct (IH d Nd) as (Nm & Hm & Hle & Hall).
      repeat split; [assumption | | lia |].
      * right. destruct Hm as [->|Hm]; [left | right]; auto. 
      * intros d' [->|Hd']%elem_of_cons Nd'; [lia | auto].
    + destruct (IH m0 N0) as (Nm & Hm & Hle & Hall).
      repeat split; [assumption | | lia |].
      * destruct Hm as [->|Hm]; [left | right; right]; auto.
      * intros d' [->|Hd']%elem_of_cons Nd'; [| auto].
        rewrite ltb_rank in E by assumption. apply Z.ltb_ge in E. lia.
Qed.

Lemma max_delay_spec ds : forall m0,
  is_nan m0 = false ->
  let m := max_delay ds m0 in
  is_nan m = false /\ (m = m0 \/ m ∈ ds) /\ (rank m0 <= rank m)%Z /\
  forall d, d ∈ ds -> is_nan d = false -> (rank d <= rank m)%Z.
Proof.
  induction ds as [|d ds IH]; intros m0 N0; cbn [max_delay fold_left].
  - repeat split; auto; try lia. intros d H. inversion H.
  - fold (max_delay ds (if (m0 <? d)%float then d else m0)).
    destruct (m0 <? d)%float eqn:E.
    + destruct (ltb_true_number _ _ E) as [_ Nd].
      rewrite ltb_rank in E by assumption. apply Z.ltb_lt in E.
      destruct (IH d Nd) as (Nm & Hm & Hle & Hall).
      repeat split; [assumption | | lia |].
      * right. destruct Hm as [->|Hm]; [left | right]; auto. 
      * intros d' [->|Hd']%elem_of_cons Nd'; [lia | auto].
    + destruct (IH m0 N0) as (Nm & Hm & Hle & Hall).
      repeat split; [assumption | | lia |].
      * destruct Hm as [->|Hm]; [left | right; right]; auto.
      * intros d' [->|Hd']%elem_of_cons Nd'; [| auto].
        rewrite ltb_rank in E by assumption. apply Z.ltb_ge in E. lia.
Qed.

Lemma min_delay_Permutation ds ds' m0 :
  is_nan m0 = false -> ds ≡ₚ ds' ->
  same_number (min_delay ds m0) (min_delay ds' m0) = true.
Proof.
  intros N0 P.
  destruct (min_delay_spec ds m0 N0) as (N1 & H1 & L1 & A1).
  destruct (min_delay_spec ds' m0 N0) as (N2 & H2 & L2 & A2).
  apply same_number_rank; try assumption.
  assert (rank (min_delay ds m0) <= rank (min_delay ds' m0))%Z.
  { destruct H2 as [->|H2]; [assumption|]. apply A1; [rewrite P|]; assumption. }
  assert (rank (min_delay ds' m0) <= rank (min_delay ds m0))%Z.
  { destruct H1 as [->|H1]; [assumption|]. apply A2; [rewrite <- P|]; assumption. }
  lia.
Qed.

Lemma max_delay_Permutation ds ds' m0 :
  is_nan m0 = false -> ds ≡ₚ ds' ->
  same_number (max_delay ds m0) (max_delay ds' m0) = true.
Proof.
  intros N0 P.
  destruct (max_delay_spec ds m0 N0) as (N1 & H1 & L1 & A1).
  destruct (max_delay_spec ds' m0 N0) as (N2 & H2 & L2 & A2).
  apply same_number_rank; try assumption.
  assert (rank (max_delay ds' m0) <= rank (max_delay ds m0))%Z.
  { destruct H2 as [->|H2]; [assumption|]. apply A1; [rewrite P|]; assumption. }
  assert (rank (max_delay ds m0) <= rank (max_delay ds' m0))%Z.
  { destruct H1 as [->|H1]; [assumption|]. apply A2; [rewrite <- P|]; assumption. }
  lia.
Qed.

(** ** The throughput object *)

Lemma count_slot_lookup k0 t k :
  count_slot k0 t !! k
  = if decide (k0 = k) then Some (default 0 (t !! k) + 1) else t !! k.
Proof.
  unfold count_slot. destruct (decide (k0 = k)) as [->|Hne].
  - destruct (t !! k) eqn:E; rewrite lookup_insert_eq; reflexivity.
  - destruct (t !! k0); rewrite lookup_insert_ne by assumption; reflexivity.
Qed.

Lemma tally_cons k k0 ks :
  tally k (k0 :: ks) = (if decide (k0 = k) then 1 else 0) + tally k ks.
Proof.
  unfold tally. rewrite filter_cons. destruct (decide (k0 = k)); reflexivity.
Qed.

Lemma count_slots_lookup ks : forall t k,
  count_slots ks t !! k
  = match t !! k with
    | Some c => Some (c + tally k ks)
    | None => if decide (tally k ks = 0) then None else Some (tally k ks)
    end.
Proof.
  induction ks as [|k0 ks IH]; intros t k; cbn [count_slots fold_left].
  - unfold tally. rewrite filter_nil. cbn.
    destruct (t !! k); [f_equal; lia | reflexivity].
  - fold (count_slots ks (count_slot k0 t)). rewrite IH, count_slot_lookup, tally_cons.
    destruct (decide (k0 = k)) as [->|Hne].
    + destruct (t !! k); unfold default, from_option, Datatypes.id.
      * f_equal; lia.
      * rewrite decide_False by lia. f_equal; lia.
    + cbn. reflexivity.
Qed.

Lemma tally_Permutation k ks ks' : ks ≡ₚ ks' -> tally k ks = tally k ks'.
Proof. intros P. unfold tally. rewrite P. reflexivity. Qed.

Lemma tally_app k ks ks' : tally k (ks ++ ks') = tally k ks + tally k ks'.
Proof. unfold tally. rewrite filter_app, length_app. reflexivity. Qed.

Lemma count_slots_Permutation ks ks' :
  ks ≡ₚ ks' -> count_slots ks ∅ = count_slots ks' ∅.
Proof.
  intros P. apply map_eq. intros k.
  rewrite !count_slots_lookup, lookup_empty, (tally_Permutation k ks ks' P).
  reflexivity.
Qed.

(** The count of a slot after the loop is the number of successful
    results in the slot. *)
Lemma slot_count_count_slots ks k : slot_count (count_slots ks ∅) k = tally k ks.
Proof.
  unfold slot_count. rewrite count_slots_lookup, lookup_empty.
  destruct (decide (tally k ks = 0)) as [->|]; reflexivity.
Qed.

Lemma merge_throughput_lookup r v k :
  merge_throughput r v !! k
  = match r !! k, v !! k with
    | Some a, Some b => Some (a + b)
    | Some a, None => Some a
    | None, Some b => Some b
    | None, None => None
    end.
Proof.
  unfold merge_throughput.
  induction v as [|j c v Hj Hfold IH] using map_first_key_ind.
  - rewrite map_fold_empty, lookup_empty. destruct (r !! k); reflexivity.
  - rewrite map_fold_insert_first_key by assumption.
    destruct (decide (j = k)) as [->|Hne].
    + rewrite lookup_insert_eq.
      rewrite Hj in IH.
      destruct (map_fold _ r v !! k) eqn:E; rewrite lookup_insert_eq;
        destruct (r !! k); congruence.
    + rewrite (lookup_insert_ne _ j k) by assumption.
      destruct (map_fold _ r v !! j); rewrite lookup_insert_ne by assumption; exact IH.
Qed.


(** ** The statistics of a sequence of results *)

Lemma stats_succ rs :
  succ (getDefaultTxStats rs) = length (filter (fun r => successful r = true) rs).
Proof. unfold getDefaultTxStats. cbn [succ stats_of]. rewrite loop_succ. reflexivity. Qed.

Lemma stats_fail rs :
  fail (getDefaultTxStats rs) = length (filter (fun r => successful r = false) rs).
Proof. unfold getDefaultTxStats. cbn [fail stats_of]. rewrite loop_fail. reflexivity. Qed.

Lemma stats_throughput rs :
  throughput (getDefaultTxStats rs) = count_slots (slots rs) ∅.
Proof. unfold getDefaultTxStats. cbn [throughput stats_of]. rewrite loop_throughput. reflexivity. Qed.

(** The count of a slot is the number of successful results whose
    [Math.round(time_valid).toString()] is the slot. *)
Lemma throughput_counts rs k :
  slot_count (throughput (getDefaultTxStats rs)) k = tally k (slots rs).
Proof. rewrite stats_throughput. apply slot_count_count_slots. Qed.

Lemma stats_create rs :
  create (getDefaultTxStats rs)
  = let p := track_all (creates rs) (NUndefined, NUndefined) in
    {| Range.min := (ToNumber (fst p) / 1000)%float;
       Range.max := (ToNumber (snd p) / 1000)%float |}.
Proof.
  unfold getDefaultTxStats. cbn [create stats_of].
  pose proof (loop_create rs initial) as H. cbn [initial v_minCreate v_maxCreate] in H.
  rewrite <- H. reflexivity.
Qed.

Lemma stats_valid rs :
  valid (getDefaultTxStats rs)
  = let p := track_all (valids rs) (NUndefined, NUndefined) in
    {| Range.min := (ToNumber (fst p) / 1000)%float;
       Range.max := (ToNumber (snd p) / 1000)%float |}.
Proof.
  unfold getDefaultTxStats. cbn [valid stats_of].
  pose proof (loop_valid rs initial) as H. cbn [initial v_minValid v_maxValid] in H.
  rewrite <- H. reflexivity.
Qed.

Lemma stats_delay rs :
  delay (getDefaultTxStats rs)
  = {| Delay.min := min_delay (latencies rs) 100000;
       Delay.max := max_delay (latencies rs) 0;
       Delay.sum := sum_delay (latencies rs) 0 |}.
Proof.
  unfold getDefaultTxStats. cbn [delay stats_of].
  rewrite loop_minDelay, loop_maxDelay, loop_delay. reflexivity.
Qed.

Lemma filter_split_length {A} (f : A -> bool) (l : list A) :
  length (filter (fun x => f x = true) l) + length (filter (fun x => f x = false) l)
  = length l.
Proof.
  induction l as [|x l IH]; [reflexivity|].
  rewrite !filter_cons. destruct (f x).
  - rewrite decide_True, decide_False by congruence. cbn. lia.
  - rewrite decide_False, decide_True by congruence. cbn. lia.
Qed.

(** C4: for every non-empty sequence of results, [succ + fail] of the
    statistics is the length of the sequence. *)
Theorem succ_plus_fail_is_length (results : list txStatus) :
  results <> [] ->
  succ (getDefaultTxStats results) + fail (getDefaultTxStats results) = length results.
Proof.
  intros _. rewrite stats_succ, stats_fail. apply filter_split_length.
Qed.

Lemma succ_plus_fail_is_length_witness :
  [tx "success" (NNumber 1000) (NNumber 1500); tx "failed" (NNumber 2000) NUndefined] <> [] /\
  succ (getDefaultTxStats [tx "success" (NNumber 1000) (NNumber 1500); tx "failed" (NNumber 2000) NUndefined])
  + fail (getDefaultTxStats [tx "success" (NNumber 1000) (NNumber 1500); tx "failed" (NNumber 2000) NUndefined])
  = length [tx "success" (NNumber 1000) (NNumber 1500); tx "failed" (NNumber 2000) NUndefined].
Proof.
  split; [discriminate|].
  apply (succ_plus_fail_is_length
           [tx "success" (NNumber 1000) (NNumber 1500); tx "failed" (NNumber 2000) NUndefined]).
  discriminate.
Defined.

(** C10: every result whose status is not ['success'] increments [fail],
    so [fail] is the number of such results; a result with status
    ['created'], submitted but not confirmed yet, is counted as failed. *)
Theorem not_success_counts_as_fail (results : list txStatus) :
  fail (getDefaultTxStats results)
  = length (filter (fun r => status r <> "success") results)
  /\ forall i c v res,
       fail (getDefaultTxStats
               (results ++ [{| id := i; status := "created"; time_create := c;
                               time_valid := v; result := res |}]))
       = fail (getDefaultTxStats results) + 1.
Proof.
  split.
  - rewrite stats_fail. f_equal. apply list_filter_iff. intros r. unfold successful.
    destruct (String.eqb_spec (status r) "success"); split; congruence.
  - intros i c v res. rewrite !stats_fail, filter_app, length_app. reflexivity.
Qed.

(** C9, as the code has it: on no results [getDefaultTxStats] returns
    the counts 0, an empty [throughput] and [out], the sum 0, [NaN] (from
    [undefined / 1000]) for the bounds of [create] and [valid], and the
    initial values 100000 and 0 for the bounds of [delay]. *)
Theorem empty_results :
  getDefaultTxStats []
  = {| succ := 0; fail := 0;
       create := {| Range.min := nan; Range.max := nan |};
       valid := {| Range.min := nan; Range.max := nan |};
       delay := {| Delay.min := 100000; Delay.max := 0; Delay.sum := 0 |};
       throughput := ∅; out := [] |}.
Proof. reflexivity. Qed.

(** C9 claims [NaN]-derived bounds for [delay] too; they are the numbers
    the loop starts from. *)
Lemma empty_delay_bounds_are_numbers :
  Delay.min (delay (getDefaultTxStats [])) = 100000%float /\
  Delay.max (delay (getDefaultTxStats [])) = 0%float /\
  is_nan (Delay.min (delay (getDefaultTxStats []))) = false /\
  is_nan (Delay.max (delay (getDefaultTxStats []))) = false.
Proof. evaluate. Qed.

(** C1 says a successful result with [time_valid = 1500] lands in slot
    ["2"]; the code rounds [time_valid] itself, in milliseconds, and
    the result lands in slot ["1500"]. *)
Theorem slot_in_milliseconds :
  throughput (getDefaultTxStats [tx "success" (NNumber 1000) (NNumber 1500)])
  = {[ "1500" := 1 ]}
  /\ throughput (getDefaultTxStats [tx "success" (NNumber 1000) (NNumber 1500)]) !! "2" = None.
Proof. evaluate. Qed.

(** C2 says [delay.min] is the least delay of the successful results;
    the loop starts the minimum at 100000, so a single result with a
    delay of 200000 seconds gives [delay.min = 100000]. *)
Theorem delay_min_capped :
  latency (tx "success" (NNumber 0) (NNumber 200000000)) = 200000%float /\
  delay (getDefaultTxStats [tx "success" (NNumber 0) (NNumber 200000000)])
  = {| Delay.min := 100000; Delay.max := 200000; Delay.sum := 200000 |}.
Proof. evaluate. Qed.

(** ** The order of the results *)

Lemma eqb_true_number x y :
  (x =? y)%float = true -> is_nan x = false /\ is_nan y = false.
Proof.
  rewrite FloatAxioms.eqb_spec. unfold SFeqb. intros H. split.
  - destruct (is_nan x) eqn:E; [|reflexivity]. apply is_nan_true in E.
    rewrite SFcompare_nan_l in H by assumption. discriminate.
  - destruct (is_nan y) eqn:E; [|reflexivity]. apply is_nan_true in E.
    rewrite SFcompare_nan_r in H by assumption. discriminate.
Qed.

Lemma same_number_refl x : same_number x x = true.
Proof.
  destruct (is_nan x) eqn:E.
  - apply same_number_nan; assumption.
  - apply same_number_rank; auto.
Qed.

(** Numbers of equal rank are the same number, or two zeros. *)
Lemma SFrank_inj a b :
  valid_binary a = true -> valid_binary b = true ->
  a <> S754_nan -> b <> S754_nan -> SFrank a = SFrank b ->
  a = b \/ exists s s', a = S754_zero s /\ b = S754_zero s'.
Proof.
  intros Va Vb Na Nb.
  destruct a as [sa|sa| |sa ma ea], b as [sb|sb| |sb mb eb]; try congruence;
    try (apply valid_finite_bounds in Va); try (apply valid_finite_bounds in Vb);
    cbn [SFrank]; intros E.
  all: try (right; eauto; fail).
  all: try (destruct sa); try (destruct sb); try lia; try (left; reflexivity).
  all: left; assert (ea = eb /\ ma = mb) as [-> ->] by lia; reflexivity.
Qed.

Lemma SFdiv_zero_l s s' c :
  SFrank (SF64div (S754_zero s) c) = SFrank (SF64div (S754_zero s') c) /\
  (SF64div (S754_zero s) c = S754_nan <-> SF64div (S754_zero s') c = S754_nan).
Proof. destruct c; cbn; split; try reflexivity; split; congruence. Qed.

Lemma div_same_number x y c :
  same_number x y = true -> same_number (x / c) (y / c) = true.
Proof.
  unfold same_number at 1. intros [H|H]%orb_true_iff.
  - destruct (eqb_true_number _ _ H) as [Nx Ny].
    rewrite eqb_rank in H by assumption. apply Z.eqb_eq in H. unfold rank in H.
    apply is_nan_false in Nx, Ny.
    destruct (SFrank_inj _ _ (Prim2SF_valid x) (Prim2SF_valid y) Nx Ny H)
      as [E|(s & s' & Ex & Ey)].
    + apply Prim2SF_inj in E. subst y. apply same_number_refl.
    + destruct (SFdiv_zero_l s s' (Prim2SF c)) as [Hr Hn].
      destruct (is_nan (x / c)) eqn:Nq.
      * apply same_number_nan; [assumption|].
        apply is_nan_true. rewrite div_spec, Ey. apply Hn.
        rewrite <- Ex, <- div_spec. apply is_nan_true. assumption.
      * apply same_number_rank; [assumption| |].
        -- apply is_nan_false. rewrite div_spec, Ey. intros C. apply Hn in C.
           apply is_nan_false in Nq. apply Nq. rewrite div_spec, Ex. assumption.
        -- unfold rank. rewrite !div_spec, Ex, Ey. assumption.
  - apply andb_true_iff in H as [Nx Ny]. apply is_nan_true in Nx, Ny.
    apply same_number_nan; apply is_nan_true; rewrite div_spec.
    + rewrite Nx. reflexivity.
    + rewrite Ny. reflexivity.
Qed.

Lemma timed_no_NaN_creates rs : Forall timed rs -> no_NaN (creates rs).
Proof.
  unfold no_NaN, creates, numbers. induction 1 as [|r rs [Hc Hv] _ IH]; cbn.
  - constructor.
  - destruct (time_create r) as [|x]; cbn in *; [assumption|].
    constructor; assumption.
Qed.

Lemma timed_no_NaN_valids rs : Forall timed rs -> no_NaN (valids rs).
Proof.
  unfold no_NaN, valids, numbers. induction 1 as [|r rs [Hc Hv] _ IH].
  - constructor.
  - rewrite filter_cons. destruct (decide (successful r = true)) as [S|S]; [|assumption].
    specialize (Hv S).
    cbn. destruct (time_valid r) as [|x]; cbn in *; [assumption|].
    constructor; assumption.
Qed.

Lemma successes_Permutation (rs rs' : list txStatus) :
  rs ≡ₚ rs' ->
  filter (fun r => successful r = true) rs ≡ₚ filter (fun r => successful r = true) rs'.
Proof. intros P. rewrite P. reflexivity. Qed.

(** C8, as the code has it: for two sequences of results that are
    permutations of each other and hold no [NaN] time, the statistics
    agree on [succ], [fail], the bounds of [create], [valid] and [delay]
    (as numbers: [===], or both [NaN]), [throughput] and [out].  The sum
    of the delays is left out: it is added up in the order of the
    results, every addition rounded. *)
Theorem order_independent_but_sum (results results' : list txStatus) :
  results ≡ₚ results' -> Forall timed results ->
  agree_but_sum (getDefaultTxStats results) (getDefaultTxStats results').
Proof.
  intros P T.
  assert (T' : Forall timed results') by (rewrite <- P; assumption).
  pose proof (successes_Permutation _ _ P) as PS.
  unfold agree_but_sum.
  rewrite !stats_succ, !stats_fail, !stats_create, !stats_valid, !stats_delay,
    !stats_throughput.
  cbn [Range.min Range.max Delay.min Delay.max out getDefaultTxStats stats_of].
  split; [rewrite P; reflexivity|].
  split; [rewrite P; reflexivity|].
  assert (PC : numbers (creates results) ≡ₚ numbers (creates results')).
  { unfold numbers, creates. apply omap_Permutation, Permutation_map, P. }
  assert (PV : numbers (valids results) ≡ₚ numbers (valids results')).
  { unfold numbers, valids. apply omap_Permutation, Permutation_map, PS. }
  assert (PL : latencies results ≡ₚ latencies results').
  { unfold latencies. apply Permutation_map, PS. }
  destruct (tracked_Permutation _ _ _ _ PC
              (track_all_spec _ (timed_no_NaN_creates _ T))
              (track_all_spec _ (timed_no_NaN_creates _ T'))) as [C1 C2].
  destruct (tracked_Permutation _ _ _ _ PV
              (track_all_spec _ (timed_no_NaN_valids _ T))
              (track_all_spec _ (timed_no_NaN_valids _ T'))) as [V1 V2].
  repeat split; try (apply div_same_number; assumption).
  - apply min_delay_Permutation; [reflexivity | assumption].
  - apply max_delay_Permutation; [reflexivity | assumption].
  - apply count_slots_Permutation. unfold slots. apply Permutation_map, PS.
Qed.

(** ** Merging in any order and grouping *)

Lemma summarises_getDefaultTxStats rs : summarises (getDefaultTxStats rs) rs.
Proof.
  unfold summarises. rewrite stats_succ, stats_fail, stats_throughput. auto.
Qed.

Lemma slots_app rs rs' : slots (rs ++ rs') = slots rs ++ slots rs'.
Proof. unfold slots. rewrite filter_app, map_app. reflexivity. Qed.

Lemma merge_throughput_count_slots ks ks' :
  merge_throughput (count_slots ks ∅) (count_slots ks' ∅) = count_slots (ks ++ ks') ∅.
Proof.
  apply map_eq. intros k.
  rewrite merge_throughput_lookup, !count_slots_lookup, !lookup_empty, tally_app.
  destruct (decide (tally k ks = 0)) as [E|E], (decide (tally k ks' = 0)) as [E'|E'].
  - rewrite decide_True by lia. reflexivity.
  - rewrite decide_False by lia. rewrite E. reflexivity.
  - rewrite decide_False by lia. rewrite E', Nat.add_0_r. reflexivity.
  - rewrite decide_False by lia. reflexivity.
Qed.

Lemma summarises_merge_body r v rs vs :
  summarises r rs -> summarises v vs -> summarises (merge_body r v) (rs ++ vs).
Proof.
  intros (S1 & F1 & T1) (S2 & F2 & T2). unfold summarises, merge_body.
  cbn [succ fail throughput].
  rewrite S1, S2, F1, F2, T1, T2, !filter_app, !length_app, slots_app,
    merge_throughput_count_slots.
  auto.
Qed.

Lemma summarises_fold vs : forall r rs groups,
  summarises r rs -> Forall2 summarises vs groups ->
  summarises (fold_left merge_body vs r) (rs ++ concat groups).
Proof.
  induction vs as [|v vs IH]; intros r rs groups Hr Hvs; inversion Hvs; subst;
    cbn [fold_left concat].
  - rewrite app_nil_r. assumption.
  - rewrite app_assoc. apply IH; [|assumption].
    apply summarises_merge_body; assumption.
Qed.

Lemma summarises_Permutation s rs rs' :
  rs ≡ₚ rs' -> summarises s rs -> summarises s rs'.
Proof.
  intros P (S1 & F1 & T1). unfold summarises. rewrite S1, F1, T1.
  split; [rewrite P; reflexivity|]. split; [rewrite P; reflexivity|].
  apply count_slots_Permutation. unfold slots.
  apply Permutation_map, successes_Permutation, P.
Qed.

Lemma merged_cons r vs : merged (r :: vs) = Some (fold_left merge_body vs r).
Proof. reflexivity. Qed.

Lemma summarises_run p : summarises (run p) (records_of p).
Proof.
  induction p as [rs | first others IHf IHo] using plan_induction; cbn [run records_of].
  - apply summarises_getDefaultTxStats.
  - rewrite merged_cons. cbn [default from_option].
    apply summarises_fold; [assumption|].
    induction IHo; cbn [map]; constructor; assumption.
Qed.

(** C3, as the code has it: however the results are split into groups,
    and in whatever order and grouping the statistics of the groups are
    merged, [succ], [fail] and the count of every slot of [throughput]
    are those of the statistics of all the results.  The sum of the
    delays is left out. *)
Theorem merge_any_order_and_grouping (p : plan) (whole : list txStatus) :
  whole ≡ₚ records_of p ->
  succ (run p) = succ (getDefaultTxStats whole) /\
  fail (run p) = fail (getDefaultTxStats whole) /\
  throughput (run p) = throughput (getDefaultTxStats whole).
Proof.
  intros P.
  destruct (summarises_Permutation _ _ _ (symmetry P) (summarises_run p)) as (S1 & F1 & T1).
  destruct (summarises_getDefaultTxStats whole) as (S2 & F2 & T2).
  rewrite S1, F1, T1, S2, F2, T2. auto.
Qed.

Lemma merge_any_order_and_grouping_witness :
  [tx_a; tx_b; tx_c] ≡ₚ records_of (Merge (Aggregate [tx_c]) [Aggregate [tx_b; tx_a]]) /\
  (succ (run (Merge (Aggregate [tx_c]) [Aggregate [tx_b; tx_a]]))
   = succ (getDefaultTxStats [tx_a; tx_b; tx_c]) /\
   fail (run (Merge (Aggregate [tx_c]) [Aggregate [tx_b; tx_a]]))
   = fail (getDefaultTxStats [tx_a; tx_b; tx_c]) /\
   throughput (run (Merge (Aggregate [tx_c]) [Aggregate [tx_b; tx_a]]))
   = throughput (getDefaultTxStats [tx_a; tx_b; tx_c])).
Proof.
  assert (P : [tx_a; tx_b; tx_c]
              ≡ₚ records_of (Merge (Aggregate [tx_c]) [Aggregate [tx_b; tx_a]])).
  { cbn. apply (Permutation_rev [tx_a; tx_b; tx_c]). }
  split; [exact P|].
  exact (merge_any_order_and_grouping
           (Merge (Aggregate [tx_c]) [Aggregate [tx_b; tx_a]]) [tx_a; tx_b; tx_c] P).
Defined.

(** C3 claims the same [delay.sum] as well: three results with delays
    of 0.1, 0.2 and 0.3 seconds sum to 0.6000000000000001 when aggregated
    together, and to 0.6 when the last two are aggregated apart and
    merged into the first. *)
Lemma delay_sum_depends_on_grouping :
  [tx_a; tx_b; tx_c] ≡ₚ records_of (Merge (Aggregate [tx_a]) [Aggregate [tx_b; tx_c]]) /\
  Delay.sum (delay (getDefaultTxStats [tx_a; tx_b; tx_c])) = 0x1.3333333333334p-1%float /\
  Delay.sum (delay (run (Merge (Aggregate [tx_a]) [Aggregate [tx_b; tx_c]])))
  = 0x1.3333333333333p-1%float /\
  same_number (Delay.sum (delay (getDefaultTxStats [tx_a; tx_b; tx_c])))
    (Delay.sum (delay (run (Merge (Aggregate [tx_a]) [Aggregate [tx_b; tx_c]]))))
  = false.
Proof.
  split; [reflexivity|]. evaluate.
Qed.

Lemma order_independent_but_sum_witness :
  ([tx_a; tx_b; tx_c] ≡ₚ [tx_c; tx_b; tx_a] /\ Forall timed [tx_a; tx_b; tx_c]) /\
  agree_but_sum (getDefaultTxStats [tx_a; tx_b; tx_c]) (getDefaultTxStats [tx_c; tx_b; tx_a]).
Proof.
  assert (P : [tx_a; tx_b; tx_c] ≡ₚ [tx_c; tx_b; tx_a])
    by apply (Permutation_rev [tx_a; tx_b; tx_c]).
  assert (T : Forall timed [tx_a; tx_b; tx_c])
    by (repeat constructor).
  split; [split; [exact P | exact T]|].
  exact (order_independent_but_sum _ _ P T).
Defined.

(** C8 claims equality in every field: the same three results sum to
    0.6000000000000001 in one order and to 0.6 in the reverse order. *)
Lemma delay_sum_depends_on_order :
  [tx_a; tx_b; tx_c] ≡ₚ [tx_c; tx_b; tx_a] /\
  Delay.sum (delay (getDefaultTxStats [tx_a; tx_b; tx_c])) = 0x1.3333333333334p-1%float /\
  Delay.sum (delay (getDefaultTxStats [tx_c; tx_b; tx_a])) = 0x1.3333333333333p-1%float /\
  same_number (Delay.sum (delay (getDefaultTxStats [tx_a; tx_b; tx_c])))
    (Delay.sum (delay (getDefaultTxStats [tx_c; tx_b; tx_a])))
  = false.
Proof.
  split; [apply (Permutation_rev [tx_a; tx_b; tx_c])|].
  evaluate.
Qed.

(** A [NaN] time is not forgotten when it comes first, and ignored when
    it comes later: with such times the bounds depend on the order. *)
Remark NaN_time_depends_on_order :
  Range.min (create (getDefaultTxStats
                       [tx "failed" (NNumber nan) NUndefined;
                        tx "failed" (NNumber 1000) NUndefined])) = nan /\
  Range.min (create (getDefaultTxStats
                       [tx "failed" (NNumber 1000) NUndefined;
                        tx "failed" (NNumber nan) NUndefined])) = 1%float.
Proof. evaluate. Qed.

(** ** The facade *)

Lemma leb_zero_not_negative x : (0 <=? x)%float = true -> (x <? 0)%float = false.
Proof.
  intros H.
  destruct (is_nan x) eqn:N.
  - rewrite leb_nan_r in H by assumption. discriminate.
  - rewrite leb_rank in H by auto. rewrite ltb_rank by auto.
    apply Z.leb_le in H. apply Z.ltb_ge. assumption.
Qed.

(** C5, as the code has it: a timeout that is not of type number (an
    absent one is [undefined]) or is a negative number is replaced by
    120; a number that is not negative is passed to the backend as it
    is, and so is [NaN], which is of type number and not below zero. *)
Theorem invoke_timeout_default {promise : Type} (this : Blockchain promise)
    (context contractID contractVer args : value) :
  (forall timeout, typeof timeout <> "number" ->
     invokeSmartContract this context contractID contractVer args timeout
     = bc_invokeSmartContract (bcObj this) context contractID contractVer args (JNumber 120))
  /\ (forall x, (x <? 0)%float = true ->
        invokeSmartContract this context contractID contractVer args (JNumber x)
        = bc_invokeSmartContract (bcObj this) context contractID contractVer args (JNumber 120))
  /\ (forall x, (0 <=? x)%float = true ->
        invokeSmartContract this context contractID contractVer args (JNumber x)
        = bc_invokeSmartContract (bcObj this) context contractID contractVer args (JNumber x))
  /\ invokeSmartContract this context contractID contractVer args (JNumber nan)
     = bc_invokeSmartContract (bcObj this) context contractID contractVer args (JNumber nan).
Proof.
  unfold invokeSmartContract. repeat split.
  - intros timeout H.
    destruct (String.eqb_spec (typeof timeout) "number") as [E|E]; [contradiction|].
    reflexivity.
  - intros x H. cbn. rewrite H. reflexivity.
  - intros x H. cbn. rewrite (leb_zero_not_negative x H). reflexivity.
Qed.

Lemma invoke_timeout_default_witness :
  (typeof JUndefined <> "number" /\ typeof (JString "30") <> "number"
   /\ (-1 <? 0)%float = true /\ (0 <=? 30)%float = true) /\
  (invokeSmartContract echo_chain JNull JNull JNull JNull JUndefined = JNumber 120
   /\ invokeSmartContract echo_chain JNull JNull JNull JNull (JString "30") = JNumber 120
   /\ invokeSmartContract echo_chain JNull JNull JNull JNull (JNumber (-1)) = JNumber 120
   /\ invokeSmartContract echo_chain JNull JNull JNull JNull (JNumber 30) = JNumber 30).
Proof.
  destruct (invoke_timeout_default echo_chain JNull JNull JNull JNull)
    as (Hother & Hneg & Hpos & _).
  split.
  - repeat split; discriminate.
  - split; [apply (Hother JUndefined); discriminate|].
    split; [apply (Hother (JString "30")); discriminate|].
    split; [apply (Hneg (-1)%float); reflexivity|].
    apply (Hpos 30%float); reflexivity.
Defined.

(** C5 claims 120 for a [NaN] timeout too: the backend receives [NaN]. *)
Lemma invoke_NaN_timeout_passed_on :
  typeof (JNumber nan) = "number"
  /\ invokeSmartContract echo_chain JNull JNull JNull JNull (JNumber nan) = JNumber nan
  /\ invokeSmartContract echo_chain JNull JNull JNull JNull (JNumber 120) = JNumber 120.
Proof. evaluate. Qed.

Lemma hasOwnProperty_builtin call own inherited key :
  get_hasOwnProperty own inherited = Builtin ->
  hasOwnProperty call (Object own inherited) key = inr (bool_decide (is_Some (own !! key))).
Proof. intros H. unfold hasOwnProperty. rewrite H. reflexivity. Qed.




(** A configuration with the key ['sawtooth'] gives a facade of that type. *)
Example constructor_sawtooth :
  constructor (fun _ => inr (Object {[ "sawtooth" := JObject 0 ]} Builtin)) no_call
    new_echo new_echo new_echo "config.json"
  = inr {| bcType := "sawtooth"; bcObj := echo |}.
Proof. reflexivity. Qed.

(** ** Minima below maxima *)

Lemma finite_time_number v :
  finite_time v = true -> exists x, v = NNumber x /\ is_finite x = true.
Proof. destruct v as [|x]; [discriminate | eauto]. Qed.

Lemma well_formed_no_NaN_creates rs : Forall well_formed rs -> no_NaN (creates rs).
Proof.
  unfold no_NaN, creates, numbers. induction 1 as [|r rs [Hc Hv] _ IH]; cbn.
  - constructor.
  - destruct (finite_time_number _ Hc) as (x & -> & Fx). cbn.
    constructor; [apply is_finite_number|]; assumption.
Qed.

Lemma well_formed_no_NaN_valids rs : Forall well_formed rs -> no_NaN (valids rs).
Proof.
  unfold no_NaN, valids, numbers. induction 1 as [|r rs [Hc Hv] _ IH].
  - constructor.
  - rewrite filter_cons. destruct (decide (successful r = true)) as [S|S]; [|assumption].
    destruct (finite_time_number _ (Hv S)) as (x & E & Fx). cbn. rewrite E. cbn.
    constructor; [apply is_finite_number|]; assumption.
Qed.

Lemma well_formed_latency r :
  well_formed r -> successful r = true -> is_nan (latency r) = false.
Proof.
  intros [Hc Hv] S. unfold latency.
  destruct (finite_time_number _ Hc) as (c & -> & Fc).
  destruct (finite_time_number _ (Hv S)) as (v & -> & Fv).
  cbn [ToNumber]. apply div_1000_number, sub_finite_number; assumption.
Qed.

(** A successful result among well-formed ones. *)
Lemma some_success rs :
  Forall well_formed rs -> (0 < succ (getDefaultTxStats rs))%nat ->
  exists r c v, r ∈ rs /\ successful r = true /\ well_formed r /\
                time_create r = NNumber c /\ time_valid r = NNumber v.
Proof.
  intros W S. rewrite stats_succ in S.
  destruct (filter (fun r => successful r = true) rs) as [|r l] eqn:E; [cbn in S; lia|].
  assert (Hr : r ∈ filter (fun r => successful r = true) rs) by (rewrite E; left).
  apply list_elem_of_filter in Hr as [Sr Ir].
  pose proof (proj1 (Forall_forall _ _) W r Ir) as Wr.
  destruct Wr as [Hc Hv].
  destruct (finite_time_number _ Hc) as (c & Ec & _).
  destruct (finite_time_number _ (Hv Sr)) as (v & Ev & _).
  exists r, c, v. repeat split; auto.
Qed.

Lemma tracked_bounds xs p x :
  tracked xs p -> x ∈ numbers xs ->
  exists a b, p = (NNumber a, NNumber b) /\ is_nan a = false /\ is_nan b = false /\
              (rank a <= rank b)%Z.
Proof.
  intros T I. destruct p as [[|a] [|b]]; cbn in T; try contradiction.
  - rewrite T in I. inversion I.
  - destruct T as (Na & Nb & Ia & Ib & Hall).
    exists a, b. repeat split; auto. specialize (Hall a Ia). lia.
Qed.

Lemma range_ordered a b :
  is_nan a = false -> is_nan b = false -> (rank a <= rank b)%Z ->
  (a / 1000 <=? b / 1000)%float = true.
Proof.
  intros Na Nb H. rewrite leb_rank by (apply div_1000_number; assumption).
  apply Z.leb_le, div_1000_rank_mono; assumption.
Qed.

(** C7, as the code has it: when the results are well formed (a finite
    [time_create], and a finite [time_valid] for a successful result)
    and at least one succeeded, the statistics have
    [create.min <= create.max],
    [valid.min <= valid.max] and [delay.min <= delay.max]. *)
Theorem min_below_max (results : list txStatus) :
  Forall well_formed results -> (0 < succ (getDefaultTxStats results))%nat ->
  (Range.min (create (getDefaultTxStats results))
   <=? Range.max (create (getDefaultTxStats results)))%float = true /\
  (Range.min (valid (getDefaultTxStats results))
   <=? Range.max (valid (getDefaultTxStats results)))%float = true /\
  (Delay.min (delay (getDefaultTxStats results))
   <=? Delay.max (delay (getDefaultTxStats results)))%float = true.
Proof.
  intros W S.
  destruct (some_success results W S) as (r & c & v & Ir & Sr & Wr & Ec & Ev).
  rewrite stats_create, stats_valid, stats_delay.
  cbn [Range.min Range.max Delay.min Delay.max].
  split; [|split].
  - assert (I : c ∈ numbers (creates results)).
    { unfold numbers, creates. apply list_elem_of_omap. exists (NNumber c).
      split; [|reflexivity]. rewrite <- Ec. apply list_elem_of_fmap_2. assumption. }
    destruct (tracked_bounds _ _ _ (track_all_spec _ (well_formed_no_NaN_creates _ W)) I)
      as (a & b & -> & Na & Nb & H).
    apply range_ordered; assumption.
  - assert (I : v ∈ numbers (valids results)).
    { unfold numbers, valids. apply list_elem_of_omap. exists (NNumber v).
      split; [|reflexivity]. rewrite <- Ev. apply list_elem_of_fmap_2.
      apply list_elem_of_filter. split; assumption. }
    destruct (tracked_bounds _ _ _ (track_all_spec _ (well_formed_no_NaN_valids _ W)) I)
      as (a & b & -> & Na & Nb & H).
    apply range_ordered; assumption.
  - assert (I : latency r ∈ latencies results).
    { unfold latencies. apply list_elem_of_fmap_2, list_elem_of_filter. split; assumption. }
    pose proof (well_formed_latency r Wr Sr) as Nd.
    destruct (min_delay_spec (latencies results) 100000 eq_refl) as (N1 & _ & _ & A1).
    destruct (max_delay_spec (latencies results) 0 eq_refl) as (N2 & _ & _ & A2).
    rewrite leb_rank by assumption. apply Z.leb_le.
    specialize (A1 _ I Nd). specialize (A2 _ I Nd). lia.
Qed.

Lemma min_below_max_witness :
  (Forall well_formed [tx "success" (NNumber 1000) (NNumber 1500);
                       tx "failed" (NNumber 2000) NUndefined] /\
   (0 < succ (getDefaultTxStats [tx "success" (NNumber 1000) (NNumber 1500);
                                 tx "failed" (NNumber 2000) NUndefined]))%nat) /\
  ((Range.min (create (getDefaultTxStats [tx "success" (NNumber 1000) (NNumber 1500);
                                          tx "failed" (NNumber 2000) NUndefined]))
    <=? Range.max (create (getDefaultTxStats [tx "success" (NNumber 1000) (NNumber 1500);
                                              tx "failed" (NNumber 2000) NUndefined])))%float
   = true /\
   (Range.min (valid (getDefaultTxStats [tx "success" (NNumber 1000) (NNumber 1500);
                                         tx "failed" (NNumber 2000) NUndefined]))
    <=? Range.max (valid (getDefaultTxStats [tx "success" (NNumber 1000) (NNumber 1500);
                                             tx "failed" (NNumber 2000) NUndefined])))%float
   = true /\
   (Delay.min (delay (getDefaultTxStats [tx "success" (NNumber 1000) (NNumber 1500);
                                         tx "failed" (NNumber 2000) NUndefined]))
    <=? Delay.max (delay (getDefaultTxStats [tx "success" (NNumber 1000) (NNumber 1500);
                                             tx "failed" (NNumber 2000) NUndefined])))%float
   = true).
Proof.
  assert (W : Forall well_formed [tx "success" (NNumber 1000) (NNumber 1500);
                                  tx "failed" (NNumber 2000) NUndefined]).
  { repeat constructor; discriminate. }
  assert (S : (0 < succ (getDefaultTxStats [tx "success" (NNumber 1000) (NNumber 1500);
                                            tx "failed" (NNumber 2000) NUndefined]))%nat).
  { vm_compute. constructor. }
  split; [split; [exact W | exact S]|].
  exact (min_below_max _ W S).
Defined.

(** C7 asks for [succ > 0] only: a single successful result without
    [time_valid] has [succ = 1], [NaN] for both bounds of [valid], and
    the bounds 100000 and 0 of [delay], which no delay replaced. *)
Lemma success_without_time_valid_is_unordered :
  succ (getDefaultTxStats [tx "success" (NNumber 1000) NUndefined]) = 1 /\
  (Range.min (valid (getDefaultTxStats [tx "success" (NNumber 1000) NUndefined]))
   <=? Range.max (valid (getDefaultTxStats [tx "success" (NNumber 1000) NUndefined])))%float
  = false /\
  (Delay.min (delay (getDefaultTxStats [tx "success" (NNumber 1000) NUndefined]))
   <=? Delay.max (delay (getDefaultTxStats [tx "success" (NNumber 1000) NUndefined])))%float
  = false /\
  delay (getDefaultTxStats [tx "success" (NNumber 1000) NUndefined])
  = {| Delay.min := 100000; Delay.max := 0; Delay.sum := nan |}.
Proof. evaluate. Qed.

Lemma leb_true_number x y :
  (x <=? y)%float = true -> is_nan x = false /\ is_nan y = false.
Proof.
  intros H. split.
  - destruct (is_nan x) eqn:E; [|reflexivity]. rewrite leb_nan_l in H; congruence.
  - destruct (is_nan y) eqn:E; [|reflexivity]. rewrite leb_nan_r in H; congruence.
Qed.

(** X20: when every delay lies between 0 and 100000 seconds, the values
    the minimum and the maximum start from do no harm: [delay.min] and
    [delay.max] are the least and the greatest delay of the successful
    results, and [delay.sum] is their sum from the left. *)
Lemma delay_bounds_in_range (results : list txStatus) :
  latencies results <> [] ->
  (forall d, d ∈ latencies results ->
             (0 <=? d)%float = true /\ (d <=? 100000)%float = true) ->
  (exists d, d ∈ latencies results /\
             same_number (Delay.min (delay (getDefaultTxStats results))) d = true) /\
  (forall d, d ∈ latencies results ->
             (Delay.min (delay (getDefaultTxStats results)) <=? d)%float = true) /\
  (exists d, d ∈ latencies results /\
             same_number (Delay.max (delay (getDefaultTxStats results))) d = true) /\
  (forall d, d ∈ latencies results ->
             (d <=? Delay.max (delay (getDefaultTxStats results)))%float = true) /\
  Delay.sum (delay (getDefaultTxStats results)) = sum_delay (latencies results) 0.
Proof.
  intros Hne Hrange. rewrite stats_delay. cbn [Delay.min Delay.max Delay.sum].
  destruct (latencies results) as [|d0 ds] eqn:E; [congruence|]. rewrite <- E in *.
  assert (I0 : d0 ∈ latencies results) by (rewrite E; left).
  assert (Hr : forall d, d ∈ latencies results ->
                 is_nan d = false /\ (rank 0 <= rank d <= rank 100000)%Z).
  { intros d Hd. destruct (Hrange d Hd) as [H0 H1].
    destruct (leb_true_number _ _ H0) as [_ Nd].
    rewrite leb_rank in H0, H1 by auto. apply Z.leb_le in H0, H1. auto. }
  destruct (min_delay_spec (latencies results) 100000 eq_refl) as (N1 & M1 & L1 & A1).
  destruct (max_delay_spec (latencies results) 0 eq_refl) as (N2 & M2 & L2 & A2).
  split; [|split; [|split; [|split]]].
  - destruct M1 as [M1|M1].
    + exists d0. split; [assumption|]. destruct (Hr d0 I0) as [Nd Rd].
      apply same_number_rank; try assumption.
      specialize (A1 d0 I0 Nd). rewrite M1 in *. lia.
    + eexists. split; [exact M1 | apply same_number_refl].
  - intros d Hd. destruct (Hr d Hd) as [Nd _].
    rewrite leb_rank by assumption. apply Z.leb_le. auto.
  - destruct M2 as [M2|M2].
    + exists d0. split; [assumption|]. destruct (Hr d0 I0) as [Nd Rd].
      apply same_number_rank; try assumption.
      specialize (A2 d0 I0 Nd). rewrite M2 in *. lia.
    + eexists. split; [exact M2 | apply same_number_refl].
  - intros d Hd. destruct (Hr d Hd) as [Nd _].
    rewrite leb_rank by assumption. apply Z.leb_le. auto.
  - reflexivity.
Qed.

(** ** Counts, slots and successful results *)

Lemma total_count_insert_new k c (t : gmap string nat) :
  t !! k = None -> total_count (<[k := c]> t) = c + total_count t.
Proof.
  intros H. unfold total_count.
  rewrite (map_fold_insert_L (fun _ c acc => c + acc) 0 k c t); [reflexivity| |assumption].
  intros. lia.
Qed.

Lemma total_count_lookup k c (t : gmap string nat) :
  t !! k = Some c -> total_count t = c + total_count (delete k t).
Proof.
  intros H. unfold total_count.
  rewrite (map_fold_delete_L (fun _ c acc => c + acc) 0 k c t); [reflexivity| |assumption].
  intros. lia.
Qed.

Lemma total_count_count_slot k (t : gmap string nat) :
  total_count (count_slot k t) = total_count t + 1.
Proof.
  unfold count_slot. destruct (t !! k) as [c|] eqn:E.
  - rewrite (total_count_lookup k c t E), <- insert_delete_eq.
    rewrite total_count_insert_new by apply lookup_delete_eq. lia.
  - rewrite total_count_insert_new by assumption. lia.
Qed.

Lemma total_count_count_slots ks : forall t,
  total_count (count_slots ks t) = total_count t + length ks.
Proof.
  induction ks as [|k ks IH]; intros t; cbn [count_slots fold_left length].
  - lia.
  - fold (count_slots ks (count_slot k t)). rewrite IH, total_count_count_slot. lia.
Qed.

(** X1: [succ] is the number of results whose status is ['success'], and
    the counts of the slots of [throughput] add up to it. *)
Theorem throughput_adds_up_to_succ (results : list txStatus) :
  succ (getDefaultTxStats results)
  = length (filter (fun r => status r = "success") results)
  /\ total_count (throughput (getDefaultTxStats results))
     = succ (getDefaultTxStats results).
Proof.
  split.
  - rewrite stats_succ. f_equal. apply list_filter_iff. intros r. unfold successful.
    destruct (String.eqb_spec (status r) "success"); split; congruence.
  - rewrite stats_throughput, stats_succ, total_count_count_slots.
    unfold slots, total_count. rewrite map_fold_empty, length_map. reflexivity.
Qed.

Lemma successes_idem rs : successes (successes rs) = successes rs.
Proof.
  unfold successes. apply list_filter_filter_l. auto.
Qed.

(** X2: a result that did not succeed contributes to [fail] and to the
    bounds of [create] only: [succ], [valid], [delay] and [throughput]
    are those of the successful results alone. *)
Theorem only_successes_count (results : list txStatus) :
  succ (getDefaultTxStats results) = succ (getDefaultTxStats (successes results)) /\
  valid (getDefaultTxStats results) = valid (getDefaultTxStats (successes results)) /\
  delay (getDefaultTxStats results) = delay (getDefaultTxStats (successes results)) /\
  throughput (getDefaultTxStats results)
  = throughput (getDefaultTxStats (successes results)) /\
  fail (getDefaultTxStats (successes results)) = 0.
Proof.
  pose proof (successes_idem results) as I. unfold successes in I.
  rewrite !stats_succ, !stats_valid, !stats_delay, !stats_throughput, stats_fail.
  unfold valids, latencies, slots, successes. rewrite !I.
  repeat split.
  clear I. rewrite list_filter_filter.
  induction results as [|r rs IH]; [reflexivity|].
  rewrite filter_cons. destruct (successful r) eqn:E.
  - rewrite decide_False; [assumption|]. intros [? ?]. discriminate.
  - rewrite decide_False; [assumption|]. intros [? ?]. discriminate.
Qed.

(** X4: whatever the results, [delay.min] is a number that is at most
    100000 and [delay.max] a number that is at least 0: the values the
    loop starts from bound them. *)
Theorem delay_bounds_capped (results : list txStatus) :
  is_nan (Delay.min (delay (getDefaultTxStats results))) = false /\
  (Delay.min (delay (getDefaultTxStats results)) <=? 100000)%float = true /\
  is_nan (Delay.max (delay (getDefaultTxStats results))) = false /\
  (0 <=? Delay.max (delay (getDefaultTxStats results)))%float = true.
Proof.
  rewrite stats_delay. cbn [Delay.min Delay.max].
  destruct (min_delay_spec (latencies results) 100000 eq_refl) as (N1 & _ & L1 & _).
  destruct (max_delay_spec (latencies results) 0 eq_refl) as (N2 & _ & L2 & _).
  repeat split; try assumption.
  - rewrite leb_rank by auto. apply Z.leb_le. assumption.
  - rewrite leb_rank by auto. apply Z.leb_le. assumption.
Qed.

(** ** Bounds that bracket the results, and results that lack a time *)

Lemma tracked_brackets xs x :
  no_NaN xs -> x ∈ numbers xs ->
  exists a b, track_all xs (NUndefined, NUndefined) = (NNumber a, NNumber b) /\
              a ∈ numbers xs /\ b ∈ numbers xs /\
              (a / 1000 <=? x / 1000)%float = true /\
              (x / 1000 <=? b / 1000)%float = true.
Proof.
  intros N I. pose proof (track_all_spec xs N) as T.
  assert (Nx : is_nan x = false) by (exact (proj1 (Forall_forall _ _) N x I)).
  destruct (track_all xs (NUndefined, NUndefined)) as [[|a] [|b]]; cbn in T;
    try contradiction.
  - rewrite T in I. inversion I.
  - destruct T as (Na & Nb & Ia & Ib & Hall). exists a, b.
    destruct (Hall x I) as [H1 H2].
    repeat split; auto; apply range_ordered; assumption.
Qed.

Lemma create_in_numbers rs r :
  r ∈ rs -> well_formed r ->
  exists c, time_create r = NNumber c /\ c ∈ numbers (creates rs).
Proof.
  intros I [Hc _]. destruct (finite_time_number _ Hc) as (c & E & _).
  exists c. split; [assumption|]. unfold numbers, creates.
  apply list_elem_of_omap. exists (NNumber c). split; [|reflexivity].
  rewrite <- E. apply list_elem_of_fmap_2. assumption.
Qed.

Lemma valid_in_numbers rs r :
  r ∈ rs -> well_formed r -> successful r = true ->
  exists v, time_valid r = NNumber v /\ v ∈ numbers (valids rs).
Proof.
  intros I [_ Hv] S. destruct (finite_time_number _ (Hv S)) as (v & E & _).
  exists v. split; [assumption|]. unfold numbers, valids.
  apply list_elem_of_omap. exists (NNumber v). split; [|reflexivity].
  rewrite <- E. apply list_elem_of_fmap_2, list_elem_of_filter. split; assumption.
Qed.

(** X3: when the results are well formed, the bounds of the statistics
    bracket every result: [create.min <= time_create / 1000 <= create.max]
    for each of them, and for each successful one also
    [valid.min <= time_valid / 1000 <= valid.max] and
    [delay.min <= (time_valid - time_create) / 1000 <= delay.max]. *)
Theorem bounds_bracket_results (results : list txStatus) (r : txStatus) :
  Forall well_formed results -> r ∈ results ->
  ((Range.min (create (getDefaultTxStats results))
    <=? ToNumber (time_create r) / 1000)%float = true /\
   (ToNumber (time_create r) / 1000
    <=? Range.max (create (getDefaultTxStats results)))%float = true) /\
  (successful r = true ->
   (Range.min (valid (getDefaultTxStats results))
    <=? ToNumber (time_valid r) / 1000)%float = true /\
   (ToNumber (time_valid r) / 1000
    <=? Range.max (valid (getDefaultTxStats results)))%float = true /\
   (Delay.min (delay (getDefaultTxStats results)) <=? latency r)%float = true /\
   (latency r <=? Delay.max (delay (getDefaultTxStats results)))%float = true).
Proof.
  intros W I. pose proof (proj1 (Forall_forall _ _) W r I) as Wr.
  rewrite stats_create, stats_valid, stats_delay.
  cbn [Range.min Range.max Delay.min Delay.max]. split.
  - destruct (create_in_numbers _ _ I Wr) as (c & -> & Ic).
    destruct (tracked_brackets _ _ (well_formed_no_NaN_creates _ W) Ic)
      as (a & b & -> & _ & _ & H1 & H2).
    cbn [fst snd ToNumber]. auto.
  - intros S.
    destruct (valid_in_numbers _ _ I Wr S) as (v & Ev & Iv).
    destruct (tracked_brackets _ _ (well_formed_no_NaN_valids _ W) Iv)
      as (a & b & -> & _ & _ & H1 & H2).
    rewrite Ev. cbn [fst snd ToNumber].
    assert (Id : latency r ∈ latencies results).
    { unfold latencies. apply list_elem_of_fmap_2, list_elem_of_filter. split; assumption. }
    pose proof (well_formed_latency r Wr S) as Nd.
    destruct (min_delay_spec (latencies results) 100000 eq_refl) as (N1 & _ & _ & A1).
    destruct (max_delay_spec (latencies results) 0 eq_refl) as (N2 & _ & _ & A2).
    repeat split; auto.
    + rewrite leb_rank by assumption. apply Z.leb_le. auto.
    + rewrite leb_rank by assumption. apply Z.leb_le. auto.
Qed.

Lemma bounds_bracket_results_witness :
  (Forall well_formed [tx "success" (NNumber 1000) (NNumber 1500);
                       tx "failed" (NNumber 2000) NUndefined] /\
   tx "success" (NNumber 1000) (NNumber 1500)
   ∈ [tx "success" (NNumber 1000) (NNumber 1500); tx "failed" (NNumber 2000) NUndefined]) /\
  (Range.min (create (getDefaultTxStats [tx "success" (NNumber 1000) (NNumber 1500);
                                         tx "failed" (NNumber 2000) NUndefined]))
   <=? 1000 / 1000)%float = true /\
  (1000 / 1000
   <=? Range.max (create (getDefaultTxStats [tx "success" (NNumber 1000) (NNumber 1500);
                                             tx "failed" (NNumber 2000) NUndefined])))%float
  = true.
Proof.
  assert (W : Forall well_formed [tx "success" (NNumber 1000) (NNumber 1500);
                                  tx "failed" (NNumber 2000) NUndefined]).
  { repeat constructor; discriminate. }
  assert (I : tx "success" (NNumber 1000) (NNumber 1500)
              ∈ [tx "success" (NNumber 1000) (NNumber 1500);
                 tx "failed" (NNumber 2000) NUndefined]) by constructor.
  split; [split; [exact W | exact I]|].
  exact (proj1 (bounds_bracket_results _ _ W I)).
Defined.

(** X5: when the results are well formed, every bound of [create] is the
    [time_create] of one of the results divided by 1000, as soon as
    there is a result, and every bound of [valid] the [time_valid] of a
    successful result divided by 1000, as soon as one succeeded. *)
Theorem bounds_are_times_of_results (results : list txStatus) :
  Forall well_formed results -> results <> [] ->
  (exists r, r ∈ results /\
     Range.min (create (getDefaultTxStats results)) = (ToNumber (time_create r) / 1000)%float) /\
  (exists r, r ∈ results /\
     Range.max (create (getDefaultTxStats results)) = (ToNumber (time_create r) / 1000)%float) /\
  ((0 < succ (getDefaultTxStats results))%nat ->
   (exists r, r ∈ results /\ successful r = true /\
      Range.min (valid (getDefaultTxStats results)) = (ToNumber (time_valid r) / 1000)%float) /\
   (exists r, r ∈ results /\ successful r = true /\
      Range.max (valid (getDefaultTxStats results)) = (ToNumber (time_valid r) / 1000)%float)).
Proof.
  intros W Hne. rewrite stats_create, stats_valid. cbn [Range.min Range.max].
  assert (back_c : forall a, a ∈ numbers (creates results) ->
            exists r, r ∈ results /\ time_create r = NNumber a).
  { intros a Ia. unfold numbers, creates in Ia.
    apply list_elem_of_omap in Ia as (x & Ix & Ex).
    apply list_elem_of_fmap in Ix as (r & -> & Ir).
    exists r. split; [assumption|]. destruct (time_create r); cbn in Ex; congruence. }
  assert (back_v : forall a, a ∈ numbers (valids results) ->
            exists r, r ∈ results /\ successful r = true /\ time_valid r = NNumber a).
  { intros a Ia. unfold numbers, valids in Ia.
    apply list_elem_of_omap in Ia as (x & Ix & Ex).
    apply list_elem_of_fmap in Ix as (r & -> & Ir).
    apply list_elem_of_filter in Ir as [S Ir].
    exists r. split; [assumption|]. split; [assumption|].
    destruct (time_valid r); cbn in Ex; congruence. }
  destruct results as [|r0 rs]; [congruence|].
  assert (I0 : r0 ∈ r0 :: rs) by left.
  destruct (create_in_numbers _ _ I0 (proj1 (Forall_forall _ _) W r0 I0)) as (c & _ & Ic).
  destruct (tracked_brackets _ _ (well_formed_no_NaN_creates _ W) Ic)
    as (a & b & -> & Ia & Ib & _).
  cbn [fst snd ToNumber].
  split; [|split].
  - destruct (back_c a Ia) as (r & Ir & Er). exists r. rewrite Er. auto.
  - destruct (back_c b Ib) as (r & Ir & Er). exists r. rewrite Er. auto.
  - intros S.
    destruct (some_success _ W S) as (r & _ & v & Ir & Sr & Wr & _ & Ev).
    destruct (valid_in_numbers _ _ Ir Wr Sr) as (v' & _ & Iv).
    destruct (tracked_brackets _ _ (well_formed_no_NaN_valids _ W) Iv)
      as (a' & b' & -> & Ia' & Ib' & _).
    cbn [fst snd ToNumber]. split.
    + destruct (back_v a' Ia') as (q & Iq & Sq & Eq). exists q. rewrite Eq. auto.
    + destruct (back_v b' Ib') as (q & Iq & Sq & Eq). exists q. rewrite Eq. auto.
Qed.

Lemma bounds_are_times_of_results_witness :
  (Forall well_formed [tx "success" (NNumber 1000) (NNumber 1500);
                       tx "failed" (NNumber 2000) NUndefined] /\
   [tx "success" (NNumber 1000) (NNumber 1500); tx "failed" (NNumber 2000) NUndefined] <> []) /\
  exists r, r ∈ [tx "success" (NNumber 1000) (NNumber 1500);
                 tx "failed" (NNumber 2000) NUndefined] /\
    Range.min (create (getDefaultTxStats [tx "success" (NNumber 1000) (NNumber 1500);
                                          tx "failed" (NNumber 2000) NUndefined]))
    = (ToNumber (time_create r) / 1000)%float.
Proof.
  assert (W : Forall well_formed [tx "success" (NNumber 1000) (NNumber 1500);
                                  tx "failed" (NNumber 2000) NUndefined]).
  { repeat constructor; discriminate. }
  assert (N : [tx "success" (NNumber 1000) (NNumber 1500);
               tx "failed" (NNumber 2000) NUndefined] <> []) by discriminate.
  split; [split; [exact W | exact N]|].
  exact (proj1 (bounds_are_times_of_results _ W N)).
Defined.

Lemma add_nan_l x y : is_nan x = true -> is_nan (x + y) = true.
Proof.
  intros H%is_nan_true. apply is_nan_true. rewrite add_spec, H. reflexivity.
Qed.

Lemma add_nan_r x y : is_nan y = true -> is_nan (x + y) = true.
Proof.
  intros H%is_nan_true. apply is_nan_true. rewrite add_spec, H.
  destruct (Prim2SF x); reflexivity.
Qed.

Lemma sub_nan_l x y : is_nan x = true -> is_nan (x - y) = true.
Proof.
  intros H%is_nan_true. apply is_nan_true. rewrite sub_spec, H. reflexivity.
Qed.

Lemma sub_nan_r x y : is_nan y = true -> is_nan (x - y) = true.
Proof.
  intros H%is_nan_true. apply is_nan_true. rewrite sub_spec, H.
  destruct (Prim2SF x); reflexivity.
Qed.

Lemma div_nan_l x y : is_nan x = true -> is_nan (x / y) = true.
Proof.
  intros H%is_nan_true. apply is_nan_true. rewrite div_spec, H. reflexivity.
Qed.

Lemma lacks_a_time_latency r : lacks_a_time r -> is_nan (latency r) = true.
Proof.
  unfold latency. intros [E|E]; rewrite E; cbn [ToNumber]; apply div_nan_l.
  - apply sub_nan_l. reflexivity.
  - apply sub_nan_r. reflexivity.
Qed.

Lemma sum_delay_nan ds : forall s, is_nan s = true -> is_nan (sum_delay ds s) = true.
Proof.
  induction ds as [|d ds IH]; intros s H; cbn [sum_delay fold_left]; [assumption|].
  apply IH, add_nan_l, H.
Qed.

Lemma sum_delay_nan_in ds d : forall s,
  d ∈ ds -> is_nan d = true -> is_nan (sum_delay ds s) = true.
Proof.
  induction ds as [|d0 ds IH]; intros s I H; [inversion I|].
  cbn [sum_delay fold_left]. apply elem_of_cons in I as [<-|I].
  - apply sum_delay_nan, add_nan_r, H.
  - apply (IH _ I H).
Qed.

(** X6: a successful result that lacks [time_valid] or [time_create]
    turns [delay.sum] into [NaN], whatever the other results are, while
    [delay.min] and [delay.max] stay numbers. *)
Theorem delay_sum_lost_by_missing_time (results : list txStatus) (r : txStatus) :
  r ∈ results -> successful r = true -> lacks_a_time r ->
  is_nan (Delay.sum (delay (getDefaultTxStats results))) = true /\
  is_nan (Delay.min (delay (getDefaultTxStats results))) = false /\
  is_nan (Delay.max (delay (getDefaultTxStats results))) = false.
Proof.
  intros I S L. rewrite stats_delay. cbn [Delay.sum Delay.min Delay.max].
  split; [|split].
  - apply (sum_delay_nan_in _ (latency r)).
    + unfold latencies. apply list_elem_of_fmap_2, list_elem_of_filter. split; assumption.
    + apply lacks_a_time_latency, L.
  - apply (min_delay_spec (latencies results) 100000 eq_refl).
  - apply (max_delay_spec (latencies results) 0 eq_refl).
Qed.

Lemma delay_sum_lost_by_missing_time_witness :
  (tx "success" (NNumber 1000) NUndefined
   ∈ [tx "success" (NNumber 1000) (NNumber 1500); tx "success" (NNumber 1000) NUndefined] /\
   successful (tx "success" (NNumber 1000) NUndefined) = true /\
   lacks_a_time (tx "success" (NNumber 1000) NUndefined)) /\
  is_nan (Delay.sum (delay (getDefaultTxStats
            [tx "success" (NNumber 1000) (NNumber 1500);
             tx "success" (NNumber 1000) NUndefined]))) = true.
Proof.
  assert (I : tx "success" (NNumber 1000) NUndefined
              ∈ [tx "success" (NNumber 1000) (NNumber 1500);
                 tx "success" (NNumber 1000) NUndefined]) by (right; left).
  assert (L : lacks_a_time (tx "success" (NNumber 1000) NUndefined)) by (left; reflexivity).
  split; [split; [exact I | split; [reflexivity | exact L]]|].
  exact (proj1 (delay_sum_lost_by_missing_time _ _ I eq_refl L)).
Defined.

Lemma tally_slots rs k :
  tally k (slots rs)
  = length (filter (fun r => successful r = true /\ slot (time_valid r) = k) rs).
Proof.
  unfold tally, slots. induction rs as [|r rs IH]; [reflexivity|].
  rewrite !filter_cons.
  destruct (decide (successful r = true)) as [S|S].
  - cbn [map]. rewrite filter_cons.
    destruct (decide (slot (time_valid r) = k)) as [E|E].
    + rewrite decide_True by auto. cbn [length]. rewrite IH. reflexivity.
    + rewrite decide_False by tauto. exact IH.
  - rewrite decide_False by tauto. exact IH.
Qed.

(** X7: [throughput] has a slot exactly for the slots of the successful
    results, and the count of a slot is the number of successful
    results whose [time_valid] rounds to it; no slot has the count 0. *)
Theorem throughput_slots (results : list txStatus) (k : string) :
  (is_Some (throughput (getDefaultTxStats results) !! k) <->
   exists r, r ∈ results /\ successful r = true /\ slot (time_valid r) = k) /\
  (forall c, throughput (getDefaultTxStats results) !! k = Some c ->
     (0 < c)%nat /\
     c = length (filter (fun r => successful r = true /\ slot (time_valid r) = k) results)).
Proof.
  rewrite stats_throughput, count_slots_lookup, lookup_empty, tally_slots.
  set (l := filter (fun r => successful r = true /\ slot (time_valid r) = k) results).
  assert (Hl : length l <> 0%nat <->
               exists r, r ∈ results /\ successful r = true /\ slot (time_valid r) = k).
  { split.
    - intros H. destruct l as [|r l'] eqn:E; [contradiction|].
      assert (I : r ∈ l) by (rewrite E; left).
      apply list_elem_of_filter in I as [[S Es] I]. eauto.
    - intros (r & I & S & Es).
      assert (I' : r ∈ l) by (apply list_elem_of_filter; auto).
      destruct l; [inversion I' | discriminate]. }
  destruct (decide (length l = 0%nat)) as [E|E]; split.
  - split; [intros [? ?]; discriminate|]. intros H. apply Hl in H. contradiction.
  - intros c ?; discriminate.
  - split; [intros _; apply Hl; assumption | eauto].
  - intros c [= <-]. split; [lia | reflexivity].
Qed.

(** ** Merged statistics *)




(** X9: however results are grouped and the statistics of the groups
    merged, the counts of the slots of [throughput] add up to [succ],
    and [succ + fail] is the number of all the results. *)
Theorem merged_counts_consistent (p : plan) :
  total_count (throughput (run p)) = succ (run p) /\
  succ (run p) + fail (run p) = length (records_of p).
Proof.
  destruct (summarises_run p) as (S & F & T). split.
  - rewrite T, S, total_count_count_slots. unfold slots, total_count.
    rewrite map_fold_empty, length_map. reflexivity.
  - rewrite S, F. clear. induction (records_of p) as [|r rs IH]; [reflexivity|].
    rewrite !filter_cons. cbn [length]. destruct (successful r) eqn:E.
    + rewrite decide_True by reflexivity. rewrite decide_False by discriminate.
      cbn [length]. lia.
    + rewrite decide_False by discriminate. rewrite decide_True by reflexivity.
      cbn [length]. lia.
Qed.

Lemma merge_throughput_comm (a b : gmap string nat) :
  merge_throughput a b = merge_throughput b a.
Proof.
  apply map_eq; intros k; rewrite !merge_throughput_lookup.
  destruct (a !! k), (b !! k); f_equal; lia.
Qed.

Lemma merge_throughput_assoc (a b c : gmap string nat) :
  merge_throughput (merge_throughput a b) c = merge_throughput a (merge_throughput b c).
Proof.
  apply map_eq; intros k; rewrite !merge_throughput_lookup.
  destruct (a !! k), (b !! k), (c !! k); f_equal; lia.
Qed.

Lemma merge_throughput_empty (a : gmap string nat) :
  merge_throughput a ∅ = a /\ merge_throughput ∅ a = a.
Proof.
  split; apply map_eq; intros k; rewrite !merge_throughput_lookup, lookup_empty;
    destruct (a !! k); reflexivity.
Qed.

(** X10: for the [throughput] objects of reductions of results (what
    [getDefaultTxStats] and merges of it produce), the merge does not
    depend on which of two is merged into the other, nor on the
    grouping of three, and the [throughput] of no results changes
    nothing. *)
Theorem merge_throughput_monoid (p q r : plan) :
  merge_throughput (throughput (run p)) (throughput (run q))
  = merge_throughput (throughput (run q)) (throughput (run p)) /\
  merge_throughput (merge_throughput (throughput (run p)) (throughput (run q)))
                   (throughput (run r))
  = merge_throughput (throughput (run p))
                     (merge_throughput (throughput (run q)) (throughput (run r))) /\
  merge_throughput (throughput (run p)) (throughput (getDefaultTxStats []))
  = throughput (run p) /\
  merge_throughput (throughput (getDefaultTxStats [])) (throughput (run p))
  = throughput (run p).
Proof.
  split; [apply merge_throughput_comm|]. split; [apply merge_throughput_assoc|].
  apply (merge_throughput_empty (throughput (run p))).
Qed.

Lemma records_of_groups p : records_of p = concat (groups p).
Proof.
  induction p as [rs | first others IHf IHo] using plan_induction; cbn [records_of groups].
  - cbn. rewrite app_nil_r. reflexivity.
  - rewrite concat_app, IHf. f_equal.
    induction IHo as [|q qs Hq _ IH]; [reflexivity|].
    cbn [map concat]. rewrite concat_app, Hq, IH. reflexivity.
Qed.

Lemma fold_invariant (I : txStatistics -> list txStatus -> Prop) :
  (forall r v rs vs, I r rs -> I v vs -> I (merge_body r v) (rs ++ vs)) ->
  forall vs r rs gs,
    I r rs -> Forall2 I vs gs -> I (fold_left merge_body vs r) (rs ++ concat gs).
Proof.
  intros HM. induction vs as [|v vs IH]; intros r rs gs Hr Hvs; inversion Hvs; subst;
    cbn [fold_left concat].
  - rewrite app_nil_r. assumption.
  - rewrite app_assoc. apply IH; [|assumption]. apply HM; assumption.
Qed.

Lemma run_invariant (G : list txStatus -> Prop) (I : txStatistics -> list txStatus -> Prop) :
  (forall rs, G rs -> I (getDefaultTxStats rs) rs) ->
  (forall r v rs vs, I r rs -> I v vs -> I (merge_body r v) (rs ++ vs)) ->
  forall p, Forall G (groups p) -> I (run p) (records_of p).
Proof.
  intros HB HM.
  induction p as [rs | first others IHf IHo] using plan_induction;
    cbn [run records_of groups]; intros HG.
  - apply HB. inversion HG. assumption.
  - rewrite merged_cons. cbn [default from_option].
    apply Forall_app in HG as [HGf HGo].
    apply (fold_invariant I HM); [auto|].
    clear IHf HGf. induction IHo as [|q qs Hq _ IH]; cbn [map concat] in *.
    + constructor.
    + apply Forall_app in HGo as [HGq HGo]. constructor; auto.
Qed.

Lemma latencies_app rs vs : latencies (rs ++ vs) = latencies rs ++ latencies vs.
Proof. unfold latencies. rewrite filter_app, map_app. reflexivity. Qed.

Lemma least_of_merge a b m0 ds ds' :
  least_of a m0 ds -> least_of b m0 ds' ->
  least_of (if (b <? a)%float then b else a) m0 (ds ++ ds').
Proof.
  intros (Na & Ma & La & Aa) (Nb & Mb & Lb & Ab).
  rewrite ltb_rank by assumption.
  destruct (Z.ltb_spec (rank b) (rank a)) as [H|H]; unfold least_of.
  - split; [assumption|]. split; [destruct Mb; [left | right; apply elem_of_app]; auto|].
    split; [assumption|]. intros d [I|I]%elem_of_app Nd.
    + specialize (Aa d I Nd). lia.
    + auto.
  - split; [assumption|]. split; [destruct Ma; [left | right; apply elem_of_app]; auto|].
    split; [assumption|]. intros d [I|I]%elem_of_app Nd.
    + auto.
    + specialize (Ab d I Nd). lia.
Qed.

Lemma greatest_of_merge a b m0 ds ds' :
  greatest_of a m0 ds -> greatest_of b m0 ds' ->
  greatest_of (if (a <? b)%float then b else a) m0 (ds ++ ds').
Proof.
  intros (Na & Ma & La & Aa) (Nb & Mb & Lb & Ab).
  rewrite ltb_rank by assumption.
  destruct (Z.ltb_spec (rank a) (rank b)) as [H|H]; unfold greatest_of.
  - split; [assumption|]. split; [destruct Mb; [left | right; apply elem_of_app]; auto|].
    split; [assumption|]. intros d [I|I]%elem_of_app Nd.
    + specialize (Aa d I Nd). lia.
    + auto.
  - split; [assumption|]. split; [destruct Ma; [left | right; apply elem_of_app]; auto|].
    split; [assumption|]. intros d [I|I]%elem_of_app Nd.
    + auto.
    + specialize (Ab d I Nd). lia.
Qed.

Lemma least_of_unique a b m0 ds ds' :
  ds ≡ₚ ds' ->
  least_of a m0 ds -> least_of b m0 ds' -> same_number a b = true.
Proof.
  intros P (Na & Ma & La & Aa) (Nb & Mb & Lb & Ab).
  apply same_number_rank; try assumption.
  assert (rank a <= rank b)%Z.
  { destruct Mb as [->|I]; [assumption|]. apply Aa; [rewrite P|]; assumption. }
  assert (rank b <= rank a)%Z.
  { destruct Ma as [->|I]; [assumption|]. apply Ab; [rewrite <- P|]; assumption. }
  lia.
Qed.

Lemma greatest_of_unique a b m0 ds ds' :
  ds ≡ₚ ds' ->
  greatest_of a m0 ds -> greatest_of b m0 ds' -> same_number a b = true.
Proof.
  intros P (Na & Ma & La & Aa) (Nb & Mb & Lb & Ab).
  apply same_number_rank; try assumption.
  assert (rank b <= rank a)%Z.
  { destruct Mb as [->|I]; [assumption|]. apply Aa; [rewrite P|]; assumption. }
  assert (rank a <= rank b)%Z.
  { destruct Ma as [->|I]; [assumption|]. apply Ab; [rewrite <- P|]; assumption. }
  lia.
Qed.

Lemma delay_bounds_of_getDefaultTxStats rs : delay_bounds_of (getDefaultTxStats rs) rs.
Proof.
  unfold delay_bounds_of. rewrite stats_delay. cbn [Delay.min Delay.max]. split.
  - apply (min_delay_spec (latencies rs) 100000 eq_refl).
  - apply (max_delay_spec (latencies rs) 0 eq_refl).
Qed.

Lemma delay_bounds_of_merge_body r v rs vs :
  delay_bounds_of r rs -> delay_bounds_of v vs ->
  delay_bounds_of (merge_body r v) (rs ++ vs).
Proof.
  intros [L1 G1] [L2 G2]. unfold delay_bounds_of, merge_body.
  cbn [delay Delay.min Delay.max]. rewrite latencies_app. split.
  - apply least_of_merge; assumption.
  - apply greatest_of_merge; assumption.
Qed.

(** X11: however the results are split into groups, and in whatever
    order and grouping the statistics of the groups are merged,
    [delay.min] and [delay.max] are, as numbers, those of the
    statistics of all the results.  No condition on the results is
    needed: the bounds of the delay of a group are never [NaN]. *)
Theorem merge_keeps_delay_bounds (p : plan) (whole : list txStatus) :
  whole ≡ₚ records_of p ->
  same_number (Delay.min (delay (run p)))
              (Delay.min (delay (getDefaultTxStats whole))) = true /\
  same_number (Delay.max (delay (run p)))
              (Delay.max (delay (getDefaultTxStats whole))) = true.
Proof.
  intros P.
  assert (HG : Forall (fun _ => True) (groups p)) by (apply Forall_forall; auto).
  destruct (run_invariant (fun _ => True) delay_bounds_of
              (fun rs _ => delay_bounds_of_getDefaultTxStats rs)
              delay_bounds_of_merge_body p HG) as [L1 G1].
  destruct (delay_bounds_of_getDefaultTxStats whole) as [L2 G2].
  assert (PL : latencies (records_of p) ≡ₚ latencies whole).
  { unfold latencies. apply Permutation_map, successes_Permutation. symmetry. exact P. }
  split.
  - exact (least_of_unique _ _ _ _ _ PL L1 L2).
  - exact (greatest_of_unique _ _ _ _ _ PL G1 G2).
Qed.

Lemma merge_keeps_delay_bounds_witness :
  [tx_c; tx_a; tx_b] ≡ₚ records_of (Merge (Aggregate [tx_a]) [Aggregate [tx_b; tx_c]]) /\
  same_number (Delay.min (delay (run (Merge (Aggregate [tx_a]) [Aggregate [tx_b; tx_c]]))))
              (Delay.min (delay (getDefaultTxStats [tx_c; tx_a; tx_b]))) = true /\
  same_number (Delay.max (delay (run (Merge (Aggregate [tx_a]) [Aggregate [tx_b; tx_c]]))))
              (Delay.max (delay (getDefaultTxStats [tx_c; tx_a; tx_b]))) = true.
Proof.
  assert (P : [tx_c; tx_a; tx_b]
              ≡ₚ records_of (Merge (Aggregate [tx_a]) [Aggregate [tx_b; tx_c]])).
  { cbn. apply (Permutation_app_comm [tx_c] [tx_a; tx_b]). }
  split; [exact P|].
  exact (merge_keeps_delay_bounds _ _ P).
Defined.

Lemma range_of_merge g h xs ys :
  range_of g xs -> range_of h ys ->
  range_of {| Range.min := if (Range.min h <? Range.min g)%float
                           then Range.min h else Range.min g;
              Range.max := if (Range.max g <? Range.max h)%float
                           then Range.max h else Range.max g |} (xs ++ ys).
Proof.
  intros (N1 & N2 & (a & Ia & Ea) & (b & Ib & Eb) & A)
         (N1' & N2' & (a' & Ia' & Ea') & (b' & Ib' & Eb') & A').
  unfold range_of. cbn [Range.min Range.max].
  rewrite !ltb_rank by assumption.
  destruct (Z.ltb_spec (rank (Range.min h)) (rank (Range.min g))) as [H|H],
           (Z.ltb_spec (rank (Range.max g)) (rank (Range.max h))) as [H'|H'].
  all: split; [assumption|]; split; [assumption|].
  all: split; [eexists; split; [apply elem_of_app|eassumption]; auto|].
  all: split; [eexists; split; [apply elem_of_app|eassumption]; auto|].
  all: intros x [I|I]%elem_of_app; [specialize (A x I) | specialize (A' x I)]; lia.
Qed.

Lemma range_of_unique g h xs ys :
  xs ≡ₚ ys -> range_of g xs -> range_of h ys ->
  same_number (Range.min g) (Range.min h) = true /\
  same_number (Range.max g) (Range.max h) = true.
Proof.
  intros P (N1 & N2 & (a & Ia & Ea) & (b & Ib & Eb) & A)
           (N1' & N2' & (a' & Ia' & Ea') & (b' & Ib' & Eb') & A').
  rewrite P in Ia, Ib. rewrite <- P in Ia', Ib'.
  pose proof (A a' Ia') as Ha'. pose proof (A b' Ib') as Hb'.
  pose proof (A' a Ia) as Ha. pose proof (A' b Ib) as Hb.
  rewrite <- Ea in Ha. rewrite <- Eb in Hb. rewrite <- Ea' in Ha'. rewrite <- Eb' in Hb'.
  split; apply same_number_rank; try assumption; lia.
Qed.

Lemma range_of_tracked xs x :
  no_NaN xs -> x ∈ numbers xs ->
  range_of {| Range.min := (ToNumber (fst (track_all xs (NUndefined, NUndefined))) / 1000)%float;
              Range.max := (ToNumber (snd (track_all xs (NUndefined, NUndefined))) / 1000)%float |}
           (numbers xs).
Proof.
  intros N I. pose proof (track_all_spec xs N) as T.
  destruct (track_all xs (NUndefined, NUndefined)) as [[|a] [|b]]; cbn in T;
    try contradiction.
  - rewrite T in I. inversion I.
  - destruct T as (Na & Nb & Ia & Ib & Hall).
    unfold range_of. cbn [Range.min Range.max fst snd ToNumber].
    split; [apply div_1000_number; assumption|].
    split; [apply div_1000_number; assumption|].
    split; [eauto|]. split; [eauto|].
    intros y Iy. destruct (Hall y Iy).
    assert (Ny : is_nan y = false) by (exact (proj1 (Forall_forall _ _) N y Iy)).
    split; apply div_1000_rank_mono; assumption.
Qed.

Lemma time_bounds_of_getDefaultTxStats rs :
  productive rs -> time_bounds_of (getDefaultTxStats rs) rs.
Proof.
  intros [W S]. unfold time_bounds_of. rewrite stats_create, stats_valid.
  destruct (some_success rs W S) as (r & _ & _ & Ir & Sr & Wr & _ & _).
  destruct (create_in_numbers _ _ Ir Wr) as (c & _ & Ic).
  destruct (valid_in_numbers _ _ Ir Wr Sr) as (v & _ & Iv).
  split; [assumption|]. split.
  - exact (range_of_tracked _ _ (well_formed_no_NaN_creates _ W) Ic).
  - exact (range_of_tracked _ _ (well_formed_no_NaN_valids _ W) Iv).
Qed.

Lemma creates_app rs vs : creates (rs ++ vs) = creates rs ++ creates vs.
Proof. unfold creates. apply map_app. Qed.

Lemma valids_app rs vs : valids (rs ++ vs) = valids rs ++ valids vs.
Proof. unfold valids. rewrite filter_app, map_app. reflexivity. Qed.

Lemma time_bounds_of_merge_body r v rs vs :
  time_bounds_of r rs -> time_bounds_of v vs -> time_bounds_of (merge_body r v) (rs ++ vs).
Proof.
  intros (W1 & C1 & V1) (W2 & C2 & V2). unfold time_bounds_of, merge_body.
  cbn [create valid]. rewrite creates_app, valids_app.
  unfold numbers. rewrite !omap_app.
  split; [apply Forall_app; auto|]. split; apply range_of_merge; assumption.
Qed.

Lemma productive_concat gs g :
  Forall productive gs -> g ∈ gs -> productive (concat gs).
Proof.
  intros H I. split.
  - apply Forall_concat. eapply Forall_impl; [exact H|]. intros ? [? ?]. assumption.
  - pose proof (proj1 (Forall_forall _ _) H g I) as [_ S].
    rewrite stats_succ in *.
    apply list_elem_of_split in I as (l1 & l2 & ->).
    rewrite concat_app. cbn [concat]. rewrite !filter_app, !length_app. lia.
Qed.

Lemma groups_not_empty p : exists g, g ∈ groups p.
Proof.
  induction p as [rs | first others [g Ig] _] using plan_induction; cbn [groups].
  - exists rs. left.
  - exists g. apply elem_of_app. auto.
Qed.

(** X12: when the results of every group are well formed and every
    group has a successful result, merging the statistics of the
    groups, in whatever order and grouping, gives the bounds of
    [create] and [valid] of the statistics of all the results (as
    numbers). *)
Theorem merge_keeps_time_bounds (p : plan) (whole : list txStatus) :
  Forall productive (groups p) -> whole ≡ₚ records_of p ->
  same_number (Range.min (create (run p)))
              (Range.min (create (getDefaultTxStats whole))) = true /\
  same_number (Range.max (create (run p)))
              (Range.max (create (getDefaultTxStats whole))) = true /\
  same_number (Range.min (valid (run p)))
              (Range.min (valid (getDefaultTxStats whole))) = true /\
  same_number (Range.max (valid (run p)))
              (Range.max (valid (getDefaultTxStats whole))) = true.
Proof.
  intros HG P.
  destruct (run_invariant productive time_bounds_of
              time_bounds_of_getDefaultTxStats time_bounds_of_merge_body p HG)
    as (_ & C1 & V1).
  assert (HW : productive whole).
  { destruct (groups_not_empty p) as [g Ig].
    pose proof (productive_concat _ _ HG Ig) as [W S].
    rewrite <- records_of_groups in W, S. split.
    - rewrite P. assumption.
    - rewrite stats_succ in *. rewrite P. assumption. }
  destruct (time_bounds_of_getDefaultTxStats whole HW) as (_ & C2 & V2).
  assert (PC : numbers (creates (records_of p)) ≡ₚ numbers (creates whole)).
  { unfold numbers, creates. apply omap_Permutation, Permutation_map. symmetry. exact P. }
  assert (PV : numbers (valids (records_of p)) ≡ₚ numbers (valids whole)).
  { unfold numbers, valids.
    apply omap_Permutation, Permutation_map, successes_Permutation. symmetry. exact P. }
  destruct (range_of_unique _ _ _ _ PC C1 C2).
  destruct (range_of_unique _ _ _ _ PV V1 V2).
  auto.
Qed.

Lemma merge_keeps_time_bounds_witness :
  (Forall productive (groups (Merge (Aggregate [tx_a]) [Aggregate [tx_b; tx_c]])) /\
   [tx_c; tx_a; tx_b] ≡ₚ records_of (Merge (Aggregate [tx_a]) [Aggregate [tx_b; tx_c]])) /\
  same_number (Range.min (create (run (Merge (Aggregate [tx_a]) [Aggregate [tx_b; tx_c]]))))
              (Range.min (create (getDefaultTxStats [tx_c; tx_a; tx_b]))) = true.
Proof.
  assert (G : Forall productive (groups (Merge (Aggregate [tx_a]) [Aggregate [tx_b; tx_c]]))).
  { cbn. repeat constructor; try discriminate; vm_compute; lia. }
  assert (P : [tx_c; tx_a; tx_b]
              ≡ₚ records_of (Merge (Aggregate [tx_a]) [Aggregate [tx_b; tx_c]])).
  { cbn. apply (Permutation_app_comm [tx_c] [tx_a; tx_b]). }
  split; [split; [exact G | exact P]|].
  exact (proj1 (merge_keeps_time_bounds _ _ G P)).
Defined.

Lemma fold_merge_valid_nan vs : forall r,
  is_nan (Range.min (valid r)) = true -> is_nan (Range.max (valid r)) = true ->
  is_nan (Range.min (valid (fold_left merge_body vs r))) = true /\
  is_nan (Range.max (valid (fold_left merge_body vs r))) = true.
Proof.
  induction vs as [|v vs IH]; intros r H1 H2; cbn [fold_left]; [auto|].
  apply IH; unfold merge_body; cbn [valid Range.min Range.max].
  - rewrite ltb_nan_r by assumption. assumption.
  - rewrite ltb_nan_l by assumption. assumption.
Qed.

(** X13: when the first group has no successful result, the bounds of
    [valid] of its statistics are [NaN], and they stay [NaN] when any
    other statistics are merged into them: the times of the successful
    results of the other groups are lost. *)
Theorem merge_into_group_without_success (first : list txStatus)
    (others : list txStatistics) :
  succ (getDefaultTxStats first) = 0 ->
  exists m, merged (getDefaultTxStats first :: others) = Some m /\
    is_nan (Range.min (valid m)) = true /\ is_nan (Range.max (valid m)) = true.
Proof.
  intros S. exists (fold_left merge_body others (getDefaultTxStats first)).
  split; [reflexivity|].
  rewrite stats_succ in S. apply length_zero_iff_nil in S.
  apply fold_merge_valid_nan; rewrite stats_valid; unfold valids; rewrite S;
    cbn [map track_all fold_left fst snd ToNumber Range.min Range.max];
    apply div_nan_l; reflexivity.
Qed.

Lemma merge_into_group_without_success_witness :
  succ (getDefaultTxStats [tx "failed" (NNumber 1000) NUndefined]) = 0 /\
  exists m, merged (getDefaultTxStats [tx "failed" (NNumber 1000) NUndefined]
                    :: [getDefaultTxStats [tx_a; tx_b]]) = Some m /\
    is_nan (Range.min (valid m)) = true /\ is_nan (Range.max (valid m)) = true.
Proof.
  split; [reflexivity|].
  exact (merge_into_group_without_success [tx "failed" (NNumber 1000) NUndefined]
           [getDefaultTxStats [tx_a; tx_b]] eq_refl).
Defined.

(** ** What the constructor returns or throws, and the timeout passed on *)

Lemma construct_inr {promise : Type} type (ctor : string -> exn + backend promise)
    configPath this :
  construct type ctor configPath = inr this ->
  bcType this = type /\ ctor configPath = inr (bcObj this).
Proof.
  unfold construct. destruct (ctor configPath) as [e|obj]; [discriminate|].
  intros [= <-]. auto.
Qed.

Lemma construct_inl {promise : Type} type (ctor : string -> exn + backend promise)
    configPath e :
  construct type ctor configPath = inl e -> ctor configPath = inl e.
Proof.
  unfold construct. destruct (ctor configPath) as [e'|obj]; [|discriminate].
  intros [= <-]. reflexivity.
Qed.

Lemma hasOwnProperty_own call own inherited key b :
  get_hasOwnProperty own inherited = Builtin ->
  hasOwnProperty call (Object own inherited) key = inr b ->
  if b then is_Some (own !! key) else own !! key = None.
Proof.
  intros B. rewrite (hasOwnProperty_builtin call own inherited key B). intros [= <-].
  destruct (decide (is_Some (own !! key))) as [H|H].
  - rewrite bool_decide_eq_true_2 by assumption. assumption.
  - rewrite bool_decide_eq_false_2 by assumption. apply eq_None_not_Some. assumption.
Qed.

Lemma hasOwnProperty_throws call config key e :
  hasOwnProperty call config key = inl e ->
  (e = TypeError /\ not_callable config) \/
  (exists f, method_is config f /\ call f key = inl e).
Proof.
  unfold hasOwnProperty, not_callable, method_is. destruct config as [|own inherited].
  - intros [= <-]. left. auto.
  - destruct (get_hasOwnProperty own inherited) as [|[| |b|x|s|o|f]];
      try (intros [= <-]; left; split; [reflexivity | exact I]).
    + discriminate.
    + unfold bind. destruct (call f key) as [e'|v] eqn:E; [|discriminate].
      intros [= <-]. right. exists f. auto.
Qed.

(** X14: an object the constructor returns has the type ['fabric'],
    ['sawtooth'] or ['iroha'], never ['unknown']: [gettype] gives the
    first of these keys, in this order, for which
    [config.hasOwnProperty] answered true, and the backend of the
    object is the one the constructor of that type returned for the
    same path.  When [config.hasOwnProperty] is the built-in function,
    that key is the first of the three that is an own property of the
    configuration. *)
Theorem constructed_type_is_first_key {promise : Type}
    (require : string -> exn + configuration) (call : nat -> string -> exn + value)
    (fabric sawtooth iroha : string -> exn + backend promise)
    (configPath : string) (this : Blockchain promise) :
  constructor require call fabric sawtooth iroha configPath = inr this ->
  exists config, require configPath = inr config /\
    ((gettype this = "fabric" /\ hasOwnProperty call config "fabric" = inr true
      /\ fabric configPath = inr (bcObj this))
     \/ (gettype this = "sawtooth" /\ hasOwnProperty call config "fabric" = inr false
         /\ hasOwnProperty call config "sawtooth" = inr true
         /\ sawtooth configPath = inr (bcObj this))
     \/ (gettype this = "iroha" /\ hasOwnProperty call config "fabric" = inr false
         /\ hasOwnProperty call config "sawtooth" = inr false
         /\ hasOwnProperty call config "iroha" = inr true
         /\ iroha configPath = inr (bcObj this)))
    /\ (forall own inherited,
          config = Object own inherited -> get_hasOwnProperty own inherited = Builtin ->
          is_Some (own !! gettype this)
          /\ (gettype this = "sawtooth" \/ gettype this = "iroha" -> own !! "fabric" = None)
          /\ (gettype this = "iroha" -> own !! "sawtooth" = None)).
Proof.
  unfold constructor, gettype.
  destruct (require configPath) as [e|config]; [discriminate|]. cbn [bind].
  intros H. exists config. split; [reflexivity|].
  destruct (hasOwnProperty call config "fabric") as [e|[|]] eqn:F; [discriminate| |];
    cbn [bind] in H.
  { apply construct_inr in H as [E ?]. split; [left; auto|].
    intros own inherited -> B. rewrite E.
    pose proof (hasOwnProperty_own _ _ _ _ _ B F) as HF. cbn in HF.
    split; [assumption|]. split; [intros [?|?]; discriminate | discriminate]. }
  destruct (hasOwnProperty call config "sawtooth") as [e|[|]] eqn:S; [discriminate| |];
    cbn [bind] in H.
  { apply construct_inr in H as [E ?]. split; [right; left; auto|].
    intros own inherited -> B. rewrite E.
    pose proof (hasOwnProperty_own _ _ _ _ _ B F) as HF.
    pose proof (hasOwnProperty_own _ _ _ _ _ B S) as HS. cbn in HF, HS.
    split; [assumption|]. split; [auto | discriminate]. }
  destruct (hasOwnProperty call config "iroha") as [e|[|]] eqn:I; [discriminate| |];
    cbn [bind] in H; [|discriminate].
  apply construct_inr in H as [E ?]. split; [right; right; auto 6|].
  intros own inherited -> B. rewrite E.
  pose proof (hasOwnProperty_own _ _ _ _ _ B F) as HF.
  pose proof (hasOwnProperty_own _ _ _ _ _ B S) as HS.
  pose proof (hasOwnProperty_own _ _ _ _ _ B I) as HI. cbn in HF, HS, HI.
  auto.
Qed.

Lemma constructed_type_is_first_key_witness :
  constructor load_method call_method new_echo new_echo new_echo "config.js"
  = inr {| bcType := "sawtooth"; bcObj := echo |} /\
  exists config, load_method "config.js" = inr config /\
    ((gettype {| bcType := "sawtooth"; bcObj := echo |} = "fabric"
      /\ hasOwnProperty call_method config "fabric" = inr true
      /\ new_echo "config.js" = inr (bcObj {| bcType := "sawtooth"; bcObj := echo |}))
     \/ (gettype {| bcType := "sawtooth"; bcObj := echo |} = "sawtooth"
         /\ hasOwnProperty call_method config "fabric" = inr false
         /\ hasOwnProperty call_method config "sawtooth" = inr true
         /\ new_echo "config.js" = inr (bcObj {| bcType := "sawtooth"; bcObj := echo |}))
     \/ (gettype {| bcType := "sawtooth"; bcObj := echo |} = "iroha"
         /\ hasOwnProperty call_method config "fabric" = inr false
         /\ hasOwnProperty call_method config "sawtooth" = inr false
         /\ hasOwnProperty call_method config "iroha" = inr true
         /\ new_echo "config.js" = inr (bcObj {| bcType := "sawtooth"; bcObj := echo |}))).
Proof.
  split; [reflexivity|].
  destruct (constructed_type_is_first_key load_method call_method new_echo new_echo new_echo
              "config.js" {| bcType := "sawtooth"; bcObj := echo |} eq_refl)
    as (config & R & H & _).
  exists config. split; assumption.
Defined.

(** X15: what the constructor throws is what [require] threw for the
    configuration; or what asking [config.hasOwnProperty] for one of
    the three keys threw, which is a [TypeError] when the configuration
    is [undefined] or [null] or its [hasOwnProperty] is not a function,
    and else what that function threw; or what the constructor of the
    backend of the first key answered with true threw; or, when all
    three answers were false, the error of an unknown configuration.
    Nothing is caught. *)
Theorem constructor_throws {promise : Type}
    (require : string -> exn + configuration) (call : nat -> string -> exn + value)
    (fabric sawtooth iroha : string -> exn + backend promise)
    (configPath : string) (e : exn) :
  constructor require call fabric sawtooth iroha configPath = inl e ->
  require configPath = inl e \/
  exists config, require configPath = inr config /\
    ((exists key, key ∈ ["fabric"; "sawtooth"; "iroha"]
        /\ hasOwnProperty call config key = inl e
        /\ ((e = TypeError /\ not_callable config)
            \/ exists f, method_is config f /\ call f key = inl e))
     \/ (hasOwnProperty call config "fabric" = inr true /\ fabric configPath = inl e)
     \/ (hasOwnProperty call config "fabric" = inr false
         /\ hasOwnProperty call config "sawtooth" = inr true
         /\ sawtooth configPath = inl e)
     \/ (hasOwnProperty call config "fabric" = inr false
         /\ hasOwnProperty call config "sawtooth" = inr false
         /\ hasOwnProperty call config "iroha" = inr true
         /\ iroha configPath = inl e)
     \/ (hasOwnProperty call config "fabric" = inr false
         /\ hasOwnProperty call config "sawtooth" = inr false
         /\ hasOwnProperty call config "iroha" = inr false
         /\ e = Error ("Unknown blockchain config file " ++ configPath))).
Proof.
  unfold constructor.
  destruct (require configPath) as [e'|config]; [intros [= <-]; left; reflexivity|].
  cbn [bind]. intros H. right. exists config. split; [reflexivity|].
  destruct (hasOwnProperty call config "fabric") as [e'|[|]] eqn:F; cbn [bind] in H.
  { injection H as <-. left. exists "fabric". split; [constructor|].
    split; [assumption | apply hasOwnProperty_throws; assumption]. }
  { apply construct_inl in H. right; left. auto. }
  destruct (hasOwnProperty call config "sawtooth") as [e'|[|]] eqn:S; cbn [bind] in H.
  { injection H as <-. left. exists "sawtooth". split; [do 2 constructor|].
    split; [assumption | apply hasOwnProperty_throws; assumption]. }
  { apply construct_inl in H. right; right; left. auto. }
  destruct (hasOwnProperty call config "iroha") as [e'|[|]] eqn:I; cbn [bind] in H.
  { injection H as <-. left. exists "iroha". split; [do 3 constructor|].
    split; [assumption | apply hasOwnProperty_throws; assumption]. }
  { apply construct_inl in H. right; right; right; left. auto. }
  injection H as <-. right; right; right; right. auto.
Qed.

Lemma constructor_throws_witness :
  constructor load_shadowed_fabric no_call new_echo new_echo new_echo "config.json"
  = inl TypeError /\
  (load_shadowed_fabric "config.json" = inl TypeError \/
   exists config, load_shadowed_fabric "config.json" = inr config /\
     ((exists key, key ∈ ["fabric"; "sawtooth"; "iroha"]
         /\ hasOwnProperty no_call config key = inl TypeError
         /\ ((TypeError = TypeError /\ not_callable config)
             \/ exists f, method_is config f /\ no_call f key = inl TypeError))
      \/ (hasOwnProperty no_call config "fabric" = inr true
          /\ new_echo "config.json" = inl TypeError)
      \/ (hasOwnProperty no_call config "fabric" = inr false
          /\ hasOwnProperty no_call config "sawtooth" = inr true
          /\ new_echo "config.json" = inl TypeError)
      \/ (hasOwnProperty no_call config "fabric" = inr false
          /\ hasOwnProperty no_call config "sawtooth" = inr false
          /\ hasOwnProperty no_call config "iroha" = inr true
          /\ new_echo "config.json" = inl TypeError)
      \/ (hasOwnProperty no_call config "fabric" = inr false
          /\ hasOwnProperty no_call config "sawtooth" = inr false
          /\ hasOwnProperty no_call config "iroha" = inr false
          /\ TypeError = Error ("Unknown blockchain config file " ++ "config.json")))).
Proof.
  split; [reflexivity|].
  exact (constructor_throws load_shadowed_fabric no_call new_echo new_echo new_echo
           "config.json" TypeError eq_refl).
Defined.

(** X16: whatever is given as timeout, the backend is called with the
    other arguments unchanged and with a timeout that is a number and
    is not negative: the number given, or 120. *)
Theorem invoke_timeout_never_negative {promise : Type} (this : Blockchain promise)
    (context contractID contractVer args timeout : value) :
  exists t,
    invokeSmartContract this context contractID contractVer args timeout
    = bc_invokeSmartContract (bcObj this) context contractID contractVer args (JNumber t)
    /\ (t <? 0)%float = false
    /\ (timeout = JNumber t \/ t = 120%float).
Proof.
  unfold invokeSmartContract.
  destruct timeout as [| |b|x|s|o|f];
    try (exists 120%float; split; [reflexivity | split; [reflexivity | right; reflexivity]]).
  cbn. destruct (x <? 0)%float eqn:E.
  - exists 120%float. split; [reflexivity | split; [reflexivity | right; reflexivity]].
  - exists x. split; [reflexivity | split; [assumption | left; reflexivity]].
Qed.

(** ** Times that are missing or [NaN], and sums of delays *)

Lemma track_undefined lo hi :
  is_undefined lo = is_undefined hi -> track NUndefined lo hi = (lo, hi).
Proof.
  unfold track, js_lt, js_gt. destruct lo as [|a], hi as [|b]; cbn [is_undefined ToNumber];
    try discriminate; intros _.
  - reflexivity.
  - rewrite ltb_nan_l, ltb_nan_r by reflexivity. reflexivity.
Qed.

Lemma track_defined x lo hi :
  is_undefined x = false -> is_undefined lo = is_undefined hi ->
  is_undefined (fst (track x lo hi)) = is_undefined (snd (track x lo hi)).
Proof.
  unfold track. intros Hx H. destruct lo as [|a], hi as [|b]; cbn [is_undefined] in *;
    try discriminate.
  - reflexivity.
  - cbn [fst snd]. destruct (js_lt x (NNumber a)), (js_gt x (NNumber b));
      cbn [is_undefined]; congruence.
Qed.

Lemma track_all_skips_undefined xs : forall p,
  is_undefined (fst p) = is_undefined (snd p) ->
  track_all xs p = track_all (filter (fun x => is_undefined x = false) xs) p.
Proof.
  induction xs as [|x xs IH]; intros [lo hi] H; [reflexivity|].
  rewrite filter_cons. cbn [track_all fold_left fst snd] in *.
  destruct (decide (is_undefined x = false)) as [D|D].
  - cbn [fold_left fst snd]. apply IH, track_defined; assumption.
  - destruct x; [|contradiction D; reflexivity].
    rewrite track_undefined by assumption. apply (IH (lo, hi)). assumption.
Qed.

Lemma creates_with_time_create rs :
  creates (with_time_create rs) = filter (fun x => is_undefined x = false) (creates rs).
Proof.
  unfold creates, with_time_create. induction rs as [|r rs IH]; [reflexivity|].
  cbn [map]. rewrite !filter_cons.
  destruct (decide (is_undefined (time_create r) = false)); cbn [map]; congruence.
Qed.

(** X17: a result without [time_create] leaves the bounds of [create]
    as they are, wherever it stands: they are those of the results
    that have one. *)
Theorem create_ignores_missing_time (results : list txStatus) :
  create (getDefaultTxStats results) = create (getDefaultTxStats (with_time_create results)).
Proof.
  rewrite !stats_create, creates_with_time_create.
  rewrite <- (track_all_skips_undefined (creates results) (NUndefined, NUndefined) eq_refl).
  reflexivity.
Qed.

Lemma track_all_nan_sticks xs a b :
  is_nan a = true -> is_nan b = true ->
  track_all xs (NNumber a, NNumber b) = (NNumber a, NNumber b).
Proof.
  intros Ha Hb. induction xs as [|x xs IH]; [reflexivity|].
  cbn [track_all fold_left fst snd]. unfold track, js_lt, js_gt.
  cbn [is_undefined ToNumber].
  rewrite (ltb_nan_r _ a Ha), (ltb_nan_l b _ Hb). exact IH.
Qed.

(** X18: when [time_create] of the first result is [NaN], both bounds
    of [create] are [NaN], whatever the results after it are. *)
Theorem NaN_first_create_is_kept (first : txStatus) (others : list txStatus) :
  is_NaN (time_create first) = true ->
  is_nan (Range.min (create (getDefaultTxStats (first :: others)))) = true /\
  is_nan (Range.max (create (getDefaultTxStats (first :: others)))) = true.
Proof.
  intros H. rewrite stats_create. unfold creates. cbn [map track_all fold_left fst snd].
  destruct (time_create first) as [|x]; [discriminate|]. cbn [is_NaN] in H.
  unfold track. cbn [is_undefined].
  change (fold_left _ (map time_create others) (NNumber x, NNumber x))
    with (track_all (map time_create others) (NNumber x, NNumber x)).
  rewrite track_all_nan_sticks by assumption.
  cbn [fst snd ToNumber Range.min Range.max]. split; apply div_nan_l; assumption.
Qed.

Lemma NaN_first_create_is_kept_witness :
  is_NaN (time_create (tx "failed" (NNumber nan) NUndefined)) = true /\
  is_nan (Range.min (create (getDefaultTxStats
            [tx "failed" (NNumber nan) NUndefined; tx_a; tx_b]))) = true /\
  is_nan (Range.max (create (getDefaultTxStats
            [tx "failed" (NNumber nan) NUndefined; tx_a; tx_b]))) = true.
Proof.
  split; [reflexivity|].
  exact (NaN_first_create_is_kept (tx "failed" (NNumber nan) NUndefined) [tx_a; tx_b] eq_refl).
Defined.

(** X19: the merged [delay.sum] is the sum, from the left and every
    addition rounded, of the sums of the array; a sum that is [NaN]
    makes the merged sum [NaN]. *)
Theorem merge_adds_delay_sums (r : txStatistics) (vs : list txStatistics) :
  exists m, merged (r :: vs) = Some m /\
    Delay.sum (delay m)
    = sum_delay (map (fun v => Delay.sum (delay v)) vs) (Delay.sum (delay r)) /\
    (forall v, v ∈ r :: vs -> is_nan (Delay.sum (delay v)) = true ->
               is_nan (Delay.sum (delay m)) = true).
Proof.
  exists (fold_left merge_body vs r). split; [reflexivity|].
  assert (E : forall vs r, Delay.sum (delay (fold_left merge_body vs r))
              = sum_delay (map (fun v => Delay.sum (delay v)) vs) (Delay.sum (delay r))).
  { clear. induction vs as [|v vs IH]; intros r; [reflexivity|].
    cbn [fold_left map sum_delay]. rewrite IH. reflexivity. }
  split; [apply E|].
  intros v I N. rewrite E. apply elem_of_cons in I as [->|I].
  - apply sum_delay_nan, N.
  - apply (sum_delay_nan_in _ (Delay.sum (delay v))); [|assumption].
    apply (list_elem_of_fmap_2 (fun v => Delay.sum (delay v))). assumption.
Qed.

Lemma delay_bounds_in_range_witness :
  (latencies [tx_a; tx_b] <> [] /\
   (forall d, d ∈ latencies [tx_a; tx_b] ->
              (0 <=? d)%float = true /\ (d <=? 100000)%float = true)) /\
  (exists d, d ∈ latencies [tx_a; tx_b] /\
             same_number (Delay.min (delay (getDefaultTxStats [tx_a; tx_b]))) d = true) /\
  (forall d, d ∈ latencies [tx_a; tx_b] ->
             (Delay.min (delay (getDefaultTxStats [tx_a; tx_b])) <=? d)%float = true).
Proof.
  assert (N : latencies [tx_a; tx_b] <> []) by discriminate.
  assert (R : forall d, d ∈ latencies [tx_a; tx_b] ->
                (0 <=? d)%float = true /\ (d <=? 100000)%float = true).
  { intros d Hd. apply elem_of_cons in Hd as [->|Hd]; [split; reflexivity|].
    apply elem_of_cons in Hd as [->|Hd]; [split; reflexivity|]. inversion Hd. }
  split; [split; [exact N | exact R]|].
  pose proof (delay_bounds_in_range [tx_a; tx_b] N R) as (H1 & H2 & _).
  exact (conj H1 H2).
Defined.

(** ** Slots and the members of [Object.prototype] *)

Lemma starts_as_slot_app s t : starts_as_slot s = true -> starts_as_slot (s ++ t) = true.
Proof. destruct s; [discriminate | intros H; exact H]. Qed.

Lemma starts_as_slot_digit d acc : starts_as_slot (Js.digit (d mod 10) ++ acc) = true.
Proof.
  change (slot_start (Ascii.ascii_of_nat (48 + Z.to_nat (d mod 10))) = true).
  unfold slot_start.
  pose proof (Z.mod_pos_bound d 10 eq_refl) as B.
  rewrite Ascii.nat_ascii_embedding by lia.
  replace (48 <=? 48 + Z.to_nat (d mod 10)) with true by (symmetry; apply Nat.leb_le; lia).
  replace (48 + Z.to_nat (d mod 10) <=? 57) with true by (symmetry; apply Nat.leb_le; lia).
  reflexivity.
Qed.

Lemma starts_as_slot_digits_go fuel : forall n acc,
  starts_as_slot acc = true -> starts_as_slot (Js.digits_go fuel n acc) = true.
Proof.
  induction fuel as [|fuel IH]; intros n acc H; cbn [Js.digits_go]; [assumption|].
  destruct (n <? 10)%Z.
  - apply starts_as_slot_digit.
  - apply IH, starts_as_slot_digit.
Qed.

Lemma starts_as_slot_digits n : starts_as_slot (Js.digits n) = true.
Proof.
  unfold Js.digits. cbn [Js.digits_go]. destruct (n <? 10)%Z.
  - apply starts_as_slot_digit.
  - apply starts_as_slot_digits_go, starts_as_slot_digit.
Qed.

Lemma starts_as_slot_format_integral s n k :
  starts_as_slot (Js.format_integral s n k) = true.
Proof.
  unfold Js.format_integral. destruct (n <=? 21)%Z.
  - apply starts_as_slot_app, starts_as_slot_digits.
  - pose proof (starts_as_slot_digits s) as H.
    destruct (Js.digits s) as [|c rest]; [discriminate|].
    destruct (k =? 1)%Z; exact H.
Qed.

Lemma starts_as_slot_Number_toString x : starts_as_slot (Js.Number_toString x) = true.
Proof.
  unfold Js.Number_toString. destruct (Prim2SF x) as [s|s| |s m e].
  - reflexivity.
  - destruct s; reflexivity.
  - reflexivity.
  - destruct s; [destruct (0 <? e)%Z; [destruct (Js.shortest m e) as [[d n] k]|]; reflexivity|].
    destruct (0 <? e)%Z.
    + destruct (Js.shortest m e) as [[d n] k]. apply starts_as_slot_format_integral.
    + apply starts_as_slot_digits.
Qed.

(** X21: the slot of a result starts with a decimal digit, with [-], or
    with the first letter of [NaN] or [Infinity], so it names no member
    of [Object.prototype]: reading [throughput[idx]] in
    [getDefaultTxStats] finds an own property or nothing, whatever
    [time_valid] is. *)
Theorem slot_names_no_member (time : numeric) :
  starts_as_slot (slot time) = true /\ slot time ∉ Object_prototype_members.
Proof.
  pose proof (starts_as_slot_Number_toString (Js.Math_round (ToNumber time))) as H.
  fold (slot time) in H. split; [assumption|].
  intros I. unfold Object_prototype_members in I.
  repeat (apply elem_of_cons in I as [I|I]; [rewrite I in H; discriminate|]).
  inversion I.
Qed.
